(** * react-ferrier: the JSON transport, the loader and the composer

    A shallow embedding of [json-api.ts] (the promise-returning XMLHttpRequest
    wrapper), [urlFor.ts], [helpers.ts] ([deepCompare], [filterNulls],
    [objectDiff]), [loader-hoc.tsx] (the loading higher-order component),
    [generate-path.ts], [composer-hoc.tsx] and [default-server-handler.tsx],
    with the properties the specification states about them and others the
    code shows.

    Conventions of the embedding:
    - a JavaScript value is a [JsVal]; numbers are the integers a double
      holds exactly (below 2^53 in magnitude, where [String(n)] is the decimal
      numeral) and [NaN]: no fractions, infinities or negative zero;
    - functions are not values of the model: the callbacks of the program are
      functions of Rocq;
    - strings are byte strings, read as UTF-8;
    - an object is the list of its own enumerable properties, in enumeration
      order; the members a prototype adds ([toString], [constructor], ...) are
      not part of the model, so a key is assumed not to name one of them,
      except in the cache of [generate-path.ts], which is read at any path;
    - code that throws or touches state is written in the monad [M]. *)

From Stdlib Require Import String Ascii List ZArith Lia Bool Arith DecimalString.
From Stdlib Require DecimalNat DecimalFacts.
Import ListNotations.
Open Scope string_scope.

Set Implicit Arguments.
Set Warnings "-register-all".

(** ** JavaScript values *)

Unset Elimination Schemes.
Inductive JsVal : Type :=
| JUndefined
| JNull
| JBool (b : bool)
| JNum (n : Z)
| JNaN
| JStr (s : string)
| JObj (props : list (string * JsVal))
| JArr (elems : list JsVal) (props : list (string * JsVal))
| JBlob (props : list (string * JsVal)) (content type : string)
| JFile (props : list (string * JsVal)) (name content type : string)
| JError (props : list (string * JsVal)) (name message : string).
Set Elimination Schemes.

Inductive JsType := TUndefined | TObject | TBoolean | TNumber | TString.

Definition JsType_eqb (a b : JsType) : bool :=
  match a, b with
  | TUndefined, TUndefined | TObject, TObject | TBoolean, TBoolean
  | TNumber, TNumber | TString, TString => true
  | _, _ => false
  end.

Definition typeof (v : JsVal) : JsType :=
  match v with
  | JUndefined => TUndefined
  | JNull => TObject
  | JBool _ => TBoolean
  | JNum _ | JNaN => TNumber
  | JStr _ => TString
  | JObj _ | JArr _ _ | JBlob _ _ _ | JFile _ _ _ _ | JError _ _ _ => TObject
  end.

(** [ToBoolean]: what [if (v)], [v && ...] and [v || ...] test. *)
Definition truthy (v : JsVal) : bool :=
  match v with
  | JUndefined | JNull | JNaN => false
  | JBool b => b
  | JNum n => negb (n =? 0)%Z
  | JStr s => negb (s =? "")
  | _ => true
  end.

Definition is_null (v : JsVal) : bool :=
  match v with JNull => true | _ => false end.

Definition is_nullish (v : JsVal) : bool :=
  match v with JNull | JUndefined => true | _ => false end.

(** [a === b]. Two object values stand for two allocations, so they are never
    identical; every [===] of the program has a primitive on one side at
    least when it is reached. *)
Definition strict_eq (a b : JsVal) : bool :=
  match a, b with
  | JUndefined, JUndefined => true
  | JNull, JNull => true
  | JBool x, JBool y => Bool.eqb x y
  | JNum x, JNum y => (x =? y)%Z
  | JStr x, JStr y => (x =? y)
  | _, _ => false
  end.

(** Decimal numerals, as [String(n)] prints an integer. *)
Definition string_of_nat (n : nat) : string :=
  NilZero.string_of_uint (Nat.to_uint n).

Definition string_of_Z (n : Z) : string :=
  NilZero.string_of_int (Z.to_int n).

Fixpoint assoc (k : string) (ps : list (string * JsVal)) : option JsVal :=
  match ps with
  | [] => None
  | (k', v) :: rest => if k =? k' then Some v else assoc k rest
  end.

(** The index properties of an array: [("0", e0); ("1", e1); ...]. *)
Fixpoint index_entries (i : nat) (elems : list JsVal) : list (string * JsVal) :=
  match elems with
  | [] => []
  | e :: rest => (string_of_nat i, e) :: index_entries (S i) rest
  end.

Fixpoint char_entries (i : nat) (s : string) : list (string * JsVal) :=
  match s with
  | EmptyString => []
  | String c rest => (string_of_nat i, JStr (String c EmptyString)) :: char_entries (S i) rest
  end.

(** Own enumerable string-keyed properties, in the order of [Object.keys] and
    of [for ... in]. *)
Definition own_entries (v : JsVal) : list (string * JsVal) :=
  match v with
  | JObj ps => ps
  | JArr es ps => (index_entries 0 es ++ ps)%list
  | JBlob ps _ _ => ps
  | JFile ps _ _ _ => ps
  | JError ps _ _ => ps
  | JStr s => char_entries 0 s
  | _ => []
  end.

Definition Object_keys (v : JsVal) : list string := map fst (own_entries v).

Definition or_undefined (o : option JsVal) : JsVal :=
  match o with Some v => v | None => JUndefined end.

Definition len (s : string) : JsVal := JNum (Z.of_nat (String.length s)).

(** [v[k]]: [None] is the TypeError of reading a property of [undefined] or
    [null]. An own property shadows the accessors of [Blob], [File] and
    [Error]. *)
Definition getProp (v : JsVal) (k : string) : option JsVal :=
  match v with
  | JUndefined | JNull => None
  | JObj ps => Some (or_undefined (assoc k ps))
  | JArr es ps =>
      Some (match assoc k (index_entries 0 es ++ ps)%list with
            | Some x => x
            | None => if k =? "length" then JNum (Z.of_nat (length es)) else JUndefined
            end)
  | JBlob ps content type =>
      Some (match assoc k ps with
            | Some x => x
            | None => if k =? "size" then len content
                      else if k =? "type" then JStr type else JUndefined
            end)
  | JFile ps name content type =>
      Some (match assoc k ps with
            | Some x => x
            | None => if k =? "name" then JStr name
                      else if k =? "size" then len content
                      else if k =? "type" then JStr type else JUndefined
            end)
  | JStr s =>
      Some (match assoc k (char_entries 0 s) with
            | Some x => x
            | None => if k =? "length" then len s else JUndefined
            end)
  | JError ps name message =>
      Some (match assoc k ps with
            | Some x => x
            | None => if k =? "name" then JStr name
                      else if k =? "message" then JStr message else JUndefined
            end)
  | JBool _ | JNum _ | JNaN => Some JUndefined
  end.

(** ** helpers.ts *)

Definition instanceof_File (v : JsVal) : bool :=
  match v with JFile _ _ _ _ => true | _ => false end.

Definition instanceof_Blob (v : JsVal) : bool :=
  match v with JBlob _ _ _ | JFile _ _ _ _ => true | _ => false end.

Definition getObjKeys (obj : JsVal) : list string :=
  let keys := Object_keys obj in
  let keys := if instanceof_File obj then (keys ++ ["name"])%list else keys in
  let keys := if instanceof_Blob obj then (keys ++ ["size"; "type"])%list else keys in
  keys.

(** [[i1, i2].every(cb)] and [[i1, i2].some(cb)]. *)
Definition both (i1 i2 : JsVal) (cb : JsVal -> bool) : bool := forallb cb [i1; i2].
Definition either (i1 i2 : JsVal) (cb : JsVal -> bool) : bool := existsb cb [i1; i2].

(** [isNaN] on a number; [deepCompare] calls it behind [typeof i == 'number']. *)
Definition isNaN (v : JsVal) : bool :=
  match v with JNaN => true | _ => false end.

Definition is_object (v : JsVal) : bool := JsType_eqb (typeof v) TObject.
Definition is_number (v : JsVal) : bool := JsType_eqb (typeof v) TNumber.

(** [deepCompare], with the depth of the recursion bounded by [fuel]; [None]
    is fuel running out and is never the answer at [deepCompare] below. *)
Fixpoint deepCompare_fuel (fuel : nat) (i1 i2 : JsVal) : option bool :=
  match fuel with
  | O => None
  | S fuel' =>
      if both i1 i2 is_number && both i1 i2 isNaN then Some true
      else if negb (both i1 i2 is_object) || either i1 i2 is_null
      then Some (strict_eq i1 i2)
      else
        let keys := getObjKeys i1 in
        if negb (length keys =? length (getObjKeys i2))%nat then Some false
        else
          (fix loop (keys : list string) : option bool :=
             match keys with
             | [] => Some true
             | prop :: rest =>
                 let v1 := or_undefined (getProp i1 prop) in
                 let v2 := or_undefined (getProp i2 prop) in
                 if is_object v1 && negb (is_null v1) then
                   match deepCompare_fuel fuel' v1 v2 with
                   | None => None
                   | Some false => Some false
                   | Some true => loop rest
                   end
                 else if negb (strict_eq v1 v2) then Some false
                 else loop rest
             end) keys
  end.

(** Nesting depth of a value: the fuel [deepCompare] needs. *)
Fixpoint depth (v : JsVal) : nat :=
  let props_depth :=
    fix go (ps : list (string * JsVal)) : nat :=
      match ps with
      | [] => 0
      | (_, x) :: rest => Nat.max (depth x) (go rest)
      end in
  match v with
  | JObj ps => S (props_depth ps)
  | JArr es ps =>
      S (Nat.max ((fix go (l : list JsVal) : nat :=
                     match l with [] => 0 | x :: rest => Nat.max (depth x) (go rest) end) es)
                 (props_depth ps))
  | JBlob ps _ _ => S (props_depth ps)
  | JFile ps _ _ _ => S (props_depth ps)
  | JError ps _ _ => S (props_depth ps)
  | _ => 0
  end.

Definition deepCompare (i1 i2 : JsVal) : bool :=
  match deepCompare_fuel (S (depth i1)) i1 i2 with
  | Some b => b
  | None => false
  end.

(** ** Effects: state and exceptions

    A computation takes the state and ends by returning a value or by
    throwing one; what it did to the state before throwing stays done. *)

Inductive Completion (A : Type) : Type :=
| Return (a : A)
| Throw (e : JsVal).
Arguments Throw {A} e.

Definition M (S A : Type) : Type := S -> Completion A * S.

Definition ret {S A} (a : A) : M S A := fun s => (Return a, s).

Definition throw {S A} (e : JsVal) : M S A := fun s => (Throw e, s).

Definition bind {S A B} (c : M S A) (k : A -> M S B) : M S B :=
  fun s =>
    match c s with
    | (Return a, s') => k a s'
    | (Throw e, s') => (Throw e, s')
    end.

(** [try { body } catch (e) { handler }]. *)
Definition try_catch {S A} (body : M S A) (handler : JsVal -> M S A) : M S A :=
  fun s =>
    match body s with
    | (Return a, s') => (Return a, s')
    | (Throw e, s') => handler e s'
    end.

Definition modify {S} (f : S -> S) : M S unit := fun s => (Return tt, f s).

Definition lift {S A} (c : Completion A) : M S A := fun s => (c, s).

Notation "x <- c ;; k" := (bind c (fun x => k))
  (at level 61, c at next level, right associativity).
Notation "c ;;; k" := (bind c (fun _ => k))
  (at level 61, right associativity).

(** The TypeError the engine throws; only its being thrown matters here. *)
Definition TypeError (message : string) : JsVal := JError [] "TypeError" message.

(** ** Built-in conversions *)

(** [String(v)]. *)
Fixpoint ToString (v : JsVal) : string :=
  match v with
  | JUndefined => "undefined"
  | JNull => "null"
  | JBool true => "true"
  | JBool false => "false"
  | JNum n => string_of_Z n
  | JNaN => "NaN"
  | JStr s => s
  | JObj _ => "[object Object]"
  | JArr es _ =>
      String.concat ","
        ((fix items (l : list JsVal) : list string :=
            match l with
            | [] => []
            | e :: rest => (if is_nullish e then "" else ToString e) :: items rest
            end) es)
  | JBlob _ _ _ => "[object Blob]"
  | JFile _ _ _ _ => "[object File]"
  | JError _ name message =>
      if message =? "" then name
      else if name =? "" then message
      else name ++ ": " ++ message
  end.

(** An upper-case hexadecimal digit, as in [%2F]. *)
Definition hex_digit (n : nat) : ascii :=
  ascii_of_nat (if (n <? 10)%nat then 48 + n else 55 + n).

(** A lower-case one, as in []. *)
Definition hex_digit_lower (n : nat) : ascii :=
  ascii_of_nat (if (n <? 10)%nat then 48 + n else 87 + n).

Definition between (lo hi n : nat) : bool := ((lo <=? n) && (n <=? hi))%nat.

(** The characters [encodeURIComponent] leaves alone:
    letters, digits and [- _ . ! ~ * ' ( )]. *)
Definition uri_unreserved (c : ascii) : bool :=
  let n := nat_of_ascii c in
  between 65 90 n || between 97 122 n || between 48 57 n
  || existsb (Nat.eqb n) [45; 95; 46; 33; 126; 42; 39; 40; 41].

Definition percent_encode (c : ascii) : string :=
  let n := nat_of_ascii c in
  String "%" (String (hex_digit (n / 16)) (String (hex_digit (n mod 16)) EmptyString)).

(** [encodeURIComponent] on a UTF-8 string: every byte outside the unreserved
    set becomes [%XX]. *)
Fixpoint encodeURIComponent (s : string) : string :=
  match s with
  | EmptyString => EmptyString
  | String c rest =>
      (if uri_unreserved c then String c EmptyString else percent_encode c)
        ++ encodeURIComponent rest
  end.

Definition quote_char : ascii := ascii_of_nat 34.
Definition backslash : ascii := ascii_of_nat 92.

Fixpoint json_escape (s : string) : string :=
  match s with
  | EmptyString => EmptyString
  | String c rest =>
      let n := nat_of_ascii c in
      (if (n =? 34)%nat then String backslash (String quote_char EmptyString)
       else if (n =? 92)%nat then String backslash (String backslash EmptyString)
       else if (n =? 8)%nat then String backslash "b"
       else if (n =? 12)%nat then String backslash "f"
       else if (n =? 10)%nat then String backslash "n"
       else if (n =? 13)%nat then String backslash "r"
       else if (n =? 9)%nat then String backslash "t"
       else if (n <? 32)%nat
            then String backslash
                   (String "u" (String "0" (String "0"
                      (String (hex_digit_lower (n / 16))
                         (String (hex_digit_lower (n mod 16)) EmptyString)))))
       else String c EmptyString) ++ json_escape rest
  end.

Definition json_quote (s : string) : string :=
  String quote_char (json_escape s ++ String quote_char EmptyString).

(** [JSON.stringify(v)]; [None] is its answer [undefined]. *)
Fixpoint JSON_stringify (v : JsVal) : option string :=
  let members :=
    fix members (ps : list (string * JsVal)) : list string :=
      match ps with
      | [] => []
      | (k, x) :: rest =>
          match JSON_stringify x with
          | Some t => (json_quote k ++ ":" ++ t) :: members rest
          | None => members rest
          end
      end in
  match v with
  | JUndefined => None
  | JNull | JNaN => Some "null"
  | JBool true => Some "true"
  | JBool false => Some "false"
  | JNum n => Some (string_of_Z n)
  | JStr s => Some (json_quote s)
  | JObj ps => Some ("{" ++ String.concat "," (members ps) ++ "}")
  | JArr es _ =>
      Some ("[" ++ String.concat ","
              ((fix items (l : list JsVal) : list string :=
                  match l with
                  | [] => []
                  | e :: rest =>
                      match JSON_stringify e with
                      | Some t => t
                      | None => "null"
                      end :: items rest
                  end) es) ++ "]")
  | JBlob ps _ _ => Some ("{" ++ String.concat "," (members ps) ++ "}")
  | JFile ps _ _ _ => Some ("{" ++ String.concat "," (members ps) ++ "}")
  | JError ps _ _ => Some ("{" ++ String.concat "," (members ps) ++ "}")
  end.

(** ** json-api.ts: the request *)

Inductive Method := GET | POST | PATCH | PUT | DELETE | LINK | UNLINK.

Definition Mime_json_utf8 : string := "application/json;charset=utf-8".

(** [for (let key in obj) if (obj.hasOwnProperty(key) && obj[key] !== undefined
    && obj[key] !== null) params.push(...)]: one turn of the loop. The keys
    enumerated are the own ones, so [hasOwnProperty] holds. *)
Definition serializeUri_step (obj : JsVal) (params : list string) (key : string)
  : list string :=
  let v := or_undefined (getProp obj key) in
  if negb (strict_eq v JUndefined) && negb (strict_eq v JNull)
  then app params [key ++ "=" ++ encodeURIComponent (ToString v)]
  else params.

Definition serializeUri (obj : JsVal) : string :=
  let params := fold_left (serializeUri_step obj) (Object_keys obj) [] in
  String.concat "&" params.

(** What the server answered: the fields of the XMLHttpRequest the handlers
    read. [status = 0] is a request that completed without an answer
    (unreachable server, timeout). *)
Record RawResult := {
  status : Z;
  responseText : string;
  Location : option string
}.

Record Handlers (S : Type) := {
  onload : option (RawResult -> M S unit);
  onreadystatechange : option (Z -> RawResult -> M S unit)
}.

(** The XMLHttpRequest object as [send] leaves it. [sent] is the argument of
    [xhr.send], and [request_body] the body of the request that leaves, which
    [xhr.send] makes of it. The [onabort] closure of [send] only writes the
    two handler slots, so it is a function on them. *)
Record XHR (S : Type) := {
  xhr_method : Method;
  xhr_url : string;
  xhr_async : bool;
  requestHeaders : list (string * string);
  timeout : Z;
  handlers : Handlers S;
  onabort : option (Handlers S -> Handlers S);
  sent : option JsVal;
  request_body : option JsVal
}.

Definition XMLHttpRequest_new (S : Type) : XHR S :=
  {| xhr_method := GET; xhr_url := ""; xhr_async := true; requestHeaders := [];
     timeout := 0; handlers := {| onload := None; onreadystatechange := None |};
     onabort := None; sent := None; request_body := None |}.

Definition xhr_open {S} (x : XHR S) (method : Method) (url : string) (async : bool) : XHR S :=
  {| xhr_method := method; xhr_url := url; xhr_async := async;
     requestHeaders := requestHeaders x; timeout := timeout x;
     handlers := handlers x; onabort := onabort x; sent := sent x;
     request_body := request_body x |}.

Definition setRequestHeader {S} (x : XHR S) (name value : string) : XHR S :=
  {| xhr_method := xhr_method x; xhr_url := xhr_url x; xhr_async := xhr_async x;
     requestHeaders := (requestHeaders x ++ [(name, value)])%list; timeout := timeout x;
     handlers := handlers x; onabort := onabort x; sent := sent x;
     request_body := request_body x |}.

Definition set_timeout {S} (x : XHR S) (ms : Z) : XHR S :=
  {| xhr_method := xhr_method x; xhr_url := xhr_url x; xhr_async := xhr_async x;
     requestHeaders := requestHeaders x; timeout := ms;
     handlers := handlers x; onabort := onabort x; sent := sent x;
     request_body := request_body x |}.

Definition set_handlers {S} (x : XHR S) (h : Handlers S) : XHR S :=
  {| xhr_method := xhr_method x; xhr_url := xhr_url x; xhr_async := xhr_async x;
     requestHeaders := requestHeaders x; timeout := timeout x;
     handlers := h; onabort := onabort x; sent := sent x;
     request_body := request_body x |}.

Definition set_onload {S} (x : XHR S) (h : RawResult -> M S unit) : XHR S :=
  set_handlers x {| onload := Some h;
                    onreadystatechange := onreadystatechange (handlers x) |}.

Definition set_onreadystatechange {S} (x : XHR S) (h : Z -> RawResult -> M S unit) : XHR S :=
  set_handlers x {| onload := onload (handlers x); onreadystatechange := Some h |}.

Definition set_onabort {S} (x : XHR S) (h : Handlers S -> Handlers S) : XHR S :=
  {| xhr_method := xhr_method x; xhr_url := xhr_url x; xhr_async := xhr_async x;
     requestHeaders := requestHeaders x; timeout := timeout x;
     handlers := handlers x; onabort := Some h; sent := sent x;
     request_body := request_body x |}.

(** [xhr.send(body)], as the XMLHttpRequest standard has it: "if the request
    method is GET or HEAD, set body to null"; a missing argument is [null];
    for another method the request carries what it is given. *)
Definition xhr_send {S} (x : XHR S) (body : JsVal) : XHR S :=
  {| xhr_method := xhr_method x; xhr_url := xhr_url x; xhr_async := xhr_async x;
     requestHeaders := requestHeaders x; timeout := timeout x;
     handlers := handlers x; onabort := onabort x; sent := Some body;
     request_body :=
       Some match xhr_method x with
            | GET => JNull
            | _ => if is_nullish body then JNull else body
            end |}.

Definition DONE : Z := 4.

(** [obj.k = x] on an object: the property keeps its place when it exists and
    is added last otherwise. *)
Fixpoint set_own (k : string) (x : JsVal) (ps : list (string * JsVal))
  : list (string * JsVal) :=
  match ps with
  | [] => [(k, x)]
  | (k', v) :: rest => if k =? k' then (k, x) :: rest else (k', v) :: set_own k x rest
  end.

(** [v.k = x] in strict code (a module is strict code), for a key that is
    neither an array index nor an accessor: it throws on [undefined], [null]
    and, as no property can be created there, on a primitive. *)
Definition assign (v : JsVal) (k : string) (x : JsVal) : Completion JsVal :=
  match v with
  | JObj ps => Return (JObj (set_own k x ps))
  | JArr es ps => Return (JArr es (set_own k x ps))
  | JBlob ps c t => Return (JBlob (set_own k x ps) c t)
  | JFile ps n c t => Return (JFile (set_own k x ps) n c t)
  | JError ps n m => Return (JError (set_own k x ps) n m)
  | _ => Throw (TypeError "Cannot create property")
  end.

Section Transport.

(** [JSON.parse]: [None] is its SyntaxError. *)
Variable JSON_parse : string -> option JsVal.

Definition parse {S} (text : string) : M S JsVal :=
  match JSON_parse text with
  | Some v => ret v
  | None => throw (JError [] "SyntaxError" "Unexpected token")
  end.

Definition read {S} (v : JsVal) (k : string) : M S JsVal :=
  match getProp v k with
  | Some x => ret x
  | None => throw (TypeError "Cannot read properties")
  end.

Definition given (o : option string) : bool :=
  match o with
  | Some s => negb (s =? "")
  | None => false
  end.

(** Try to parse a server response as JSON; if the server responded
    anomalously, the raw response is handed over. *)
Definition doSuccess {S} (callback : JsVal -> M S unit) (response : string)
    (redirectTo : option string) : M S unit :=
  parsed <- try_catch
              (parsed <- parse response ;;
               if given redirectTo
               then lift (assign parsed "redirectTo"
                            (JStr (match redirectTo with Some l => l | None => "" end)))
               else ret parsed)
              (fun _ => ret (JStr response)) ;;
  callback parsed.

Definition no_message : string := "(no message provided)".
Definition unexpected_response : string := "Server returned with an unexpected response".

(** Try to parse a server error response as JSON; if that does not work, the
    raw response is handed over. *)
Definition doError {S} (callback : JsVal -> M S unit) (response : string) : M S unit :=
  try_catch
    (data <- parse response ;;
     error <- read data "error" ;;
     let message := if strict_eq error (JStr "") then JStr no_message else error in
     callback (if truthy message then message else data))
    (fun _ =>
       callback (JStr (if negb (response =? "") then response else unexpected_response))).

(** The base send function. The line it writes to the logger is left out. *)
Definition send {S} (method : Method) (url : string) (data : JsVal)
    (success fail : JsVal -> M S unit) (contentType : string) : XHR S :=
  let xhr := XMLHttpRequest_new S in
  let xhr := xhr_open xhr method url true in
  let xhr := setRequestHeader xhr "Accept" Mime_json_utf8 in
  let xhr := set_timeout xhr (90 * 1000) in
  let xhr := if negb (contentType =? "")
             then setRequestHeader xhr "Content-Type" contentType else xhr in
  let xhr := set_onload xhr (fun r =>
               let locationHeader := Location r in
               if ((status r >=? 200) && (status r <? 300))%Z then
                 if given locationHeader
                 then doSuccess success (responseText r) locationHeader
                 else doSuccess success (responseText r) None
               else doError fail (responseText r)) in
  let xhr := set_onreadystatechange xhr (fun readyState r =>
               if ((readyState =? DONE) && (status r =? 0))%Z
               then fail (JStr "Could not reach the server")
               else ret tt) in
  let xhr := set_onabort xhr (fun _ => {| onload := None; onreadystatechange := None |}) in
  xhr_send xhr (if truthy data
                then match JSON_stringify data with Some t => JStr t | None => JUndefined end
                else data).

(** The functions [wrap] is applied to, one per HTTP method; the two callbacks
    are the rest arguments [send] receives. *)
Definition ApiFn (S : Type) : Type :=
  string -> JsVal -> (JsVal -> M S unit) -> (JsVal -> M S unit) -> XHR S.

Definition get_fn {S} : ApiFn S := fun url data success fail =>
  let url := if truthy data then url ++ "?" ++ serializeUri data else url in
  send GET url (JObj []) success fail Mime_json_utf8.

Definition post_fn {S} : ApiFn S := fun url data success fail =>
  send POST url data success fail Mime_json_utf8.
Definition patch_fn {S} : ApiFn S := fun url data success fail =>
  send PATCH url data success fail Mime_json_utf8.
Definition put_fn {S} : ApiFn S := fun url data success fail =>
  send PUT url data success fail Mime_json_utf8.
Definition link_fn {S} : ApiFn S := fun url data success fail =>
  send LINK url data success fail Mime_json_utf8.
Definition unlink_fn {S} : ApiFn S := fun url data success fail =>
  send UNLINK url data success fail Mime_json_utf8.
Definition delete_fn {S} : ApiFn S := fun url data success fail =>
  send DELETE url data success fail Mime_json_utf8.

(** The exported record of functions, before [wrap], by method. *)
Definition api_fn {S} (method : Method) : ApiFn S :=
  match method with
  | GET => get_fn
  | POST => post_fn
  | PATCH => patch_fn
  | PUT => put_fn
  | DELETE => delete_fn
  | LINK => link_fn
  | UNLINK => unlink_fn
  end.

End Transport.

(** ** Promises

    The answer of the server is an input of the model. A promise is
    represented by its settlement, and attaching a reaction runs it against
    that settlement: JavaScript runs it later, from the job queue, once and
    with the same argument. Reactions return values, not promises. *)

Inductive Outcome :=
| Pending
| Fulfilled (v : JsVal)
| Rejected (e : JsVal).

(** The two resolving functions handed to the executor of [new Promise]: the
    first call settles the promise, later calls do nothing. *)
Definition resolve (v : JsVal) : M Outcome unit :=
  modify (fun o => match o with Pending => Fulfilled v | _ => o end).

Definition reject (e : JsVal) : M Outcome unit :=
  modify (fun o => match o with Pending => Rejected e | _ => o end).

(** The browser calling an event handler: an exception of the handler is
    reported and the dispatch goes on. *)
Definition dispatch {S} (h : M S unit) : M S unit :=
  try_catch h (fun _ => ret tt).

Definition fire_readystatechange {S} (x : XHR S) (readyState : Z) (r : RawResult)
  : M S unit :=
  match onreadystatechange (handlers x) with
  | Some h => dispatch (h readyState r)
  | None => ret tt
  end.

Definition fire_load {S} (x : XHR S) (r : RawResult) : M S unit :=
  match onload (handlers x) with
  | Some h => dispatch (h r)
  | None => ret tt
  end.

Inductive Network :=
| Answered (r : RawResult)
| Silent.

(** The events of a request that completes, as the XMLHttpRequest standard
    orders them: [readystatechange] up to [DONE], then [load] when an answer
    came ([error] or [timeout] otherwise, which [send] does not listen to). *)
Definition complete {S} (x : XHR S) (net : Network) : M S unit :=
  match net with
  | Silent => ret tt
  | Answered r =>
      if (status r =? 0)%Z then fire_readystatechange x DONE r
      else
        fire_readystatechange x 2 r ;;;
        fire_readystatechange x 3 r ;;;
        fire_readystatechange x DONE r ;;;
        fire_load x r
  end.

(** How the promise of a request ends. *)
Definition settlement (x : XHR Outcome) (net : Network) : Outcome :=
  snd (complete x net Pending).

Section Promises.

(** The state reactions act on: navigation history, component state, ... *)
Variable W : Type.

(** [xhr.abort()], the browser's. *)
Variable abort : XHR Outcome -> M W unit.

Definition Handler : Type := JsVal -> M W JsVal.

(** The closure [wrap] passes as [onCancel], with the [xhr] variable it
    captured. *)
Inductive CancelFn :=
| OnCancel (xhr : option (XHR Outcome)).

Definition call_cancel (c : CancelFn) : M W unit :=
  match c with
  | OnCancel (Some xhr) => abort xhr
  | OnCancel None => throw (JStr "XMLHttpRequest cannot be canceled before it is initiated.")
  end.

(** What the property [then] (or [catch]) of a promise object holds: the
    method of [Promise.prototype], or the function [makeCancellablePromise]
    put there, a closure over the previous holder and [onCancel]. *)
Inductive MethodImpl :=
| Builtin
| Patch (previous : MethodImpl) (onCancel : CancelFn).

Record Promise := {
  outcome : Outcome;
  own_then : MethodImpl;
  own_catch : MethodImpl;
  cancel : option CancelFn
}.

Definition new_promise (o : Outcome) : Promise :=
  {| outcome := o; own_then := Builtin; own_catch := Builtin; cancel := None |}.

(** Recursively enhance returned promise objects to include a [cancel]
    method. The promise handed in is fresh at both call sites, so writing its
    three properties is building the enhanced object. *)
Definition makeCancellablePromise (promise : Promise) (onCancel : CancelFn) : Promise :=
  let then_ := own_then promise in
  let katch := own_catch promise in
  {| outcome := outcome promise;
     own_then := Patch then_ onCancel;
     own_catch := Patch katch onCancel;
     cancel := Some onCancel |}.

(** A reaction job: the handler for the settlement runs; what it returns
    fulfils the derived promise, what it throws rejects it; without a handler
    the settlement passes through. *)
Definition react (o : Outcome) (onfulfilled onrejected : option Handler) : M W Outcome :=
  let run (h : Handler) (x : JsVal) : M W Outcome :=
    try_catch (r <- h x ;; ret (Fulfilled r)) (fun e => ret (Rejected e)) in
  match o with
  | Pending => ret Pending
  | Fulfilled v =>
      match onfulfilled with Some h => run h v | None => ret (Fulfilled v) end
  | Rejected e =>
      match onrejected with Some h => run h e | None => ret (Rejected e) end
  end.

(** [Promise.prototype.then]. *)
Definition Promise_prototype_then (this : Promise) (onfulfilled onrejected : option Handler)
  : M W Promise :=
  o <- react (outcome this) onfulfilled onrejected ;;
  ret (new_promise o).

(** Calling what the [then] property holds, on [this]. *)
Fixpoint call_then (impl : MethodImpl) (this : Promise)
    (onfulfilled onrejected : option Handler) : M W Promise :=
  match impl with
  | Builtin => Promise_prototype_then this onfulfilled onrejected
  | Patch then_ onCancel =>
      p <- call_then then_ this onfulfilled onrejected ;;
      ret (makeCancellablePromise p onCancel)
  end.

(** Calling what the [catch] property holds. [Promise.prototype.catch] calls
    [this.then(undefined, onrejected)], through the property. *)
Fixpoint call_catch (impl : MethodImpl) (this : Promise) (onrejected : option Handler)
  : M W Promise :=
  match impl with
  | Builtin => call_then (own_then this) this None onrejected
  | Patch katch onCancel =>
      p <- call_catch katch this onrejected ;;
      ret (makeCancellablePromise p onCancel)
  end.

(** [p.then(f, g)] and [p.catch(g)]. *)
Definition then_ (p : Promise) (onfulfilled onrejected : option Handler) : M W Promise :=
  call_then (own_then p) p onfulfilled onrejected.

Definition catch_ (p : Promise) (onrejected : option Handler) : M W Promise :=
  call_catch (own_catch p) p onrejected.

(** [p.cancel()]; a promise without the property throws a TypeError. *)
Definition cancel_ (p : Promise) : M W unit :=
  match cancel p with
  | Some c => call_cancel c
  | None => throw (TypeError "cancel is not a function")
  end.

(** ** json-api.ts: [wrap] *)

(** The [history] handle of the caller: its [location] and its two ways of
    navigating. *)
Record History := {
  location : W -> JsVal;
  push : JsVal -> W -> W;
  replace : JsVal -> W -> W
}.

Record Options := { routeWith : option History }.

Definition no_options : Options := {| routeWith := None |}.

Variable JSON_parse : string -> option JsVal.

(** [urlFor], whose interpreter the application may replace. *)
Variable urlFor : JsVal -> Completion string.

(** [{...obj, k: x}]. *)
Definition spread_with (obj : JsVal) (k : string) (x : JsVal) : list (string * JsVal) :=
  set_own k x (own_entries obj).

(** [({message, ...redirect}) => ...], the reaction to a success. *)
Definition route_success (history : History) : Handler := fun response =>
  message <- read response "message" ;;
  let redirect :=
    JObj (filter (fun p => negb (fst p =? "message")) (own_entries response)) in
  if (0 <? length (Object_keys redirect))%nat then
    pathname <- lift (urlFor redirect) ;;
    modify (fun w =>
      push history
        (JObj (set_own "state" (JObj [("serverMessage", message)])
                 (spread_with (location history w) "pathname" (JStr pathname)))) w) ;;;
    ret JUndefined
  else
    modify (fun w =>
      replace history
        (JObj (spread_with (location history w) "state"
                 (JObj [("serverMessage", message)]))) w) ;;;
    ret JUndefined.

(** [(error) => ...], the reaction to a failure. *)
Definition route_failure (history : History) : Handler := fun error =>
  modify (fun w =>
    replace history
      (JObj (spread_with (location history w) "state"
               (JObj [("errorMessage", error)]))) w) ;;;
  ret JUndefined.

(** Make JsonApi functions return a promise instead of requiring callbacks. *)
Definition wrap (fn : ApiFn Outcome) (url : string) (data : JsVal) (options : Options)
    (net : Network) : M W Promise :=
  let xhr := fn url data resolve reject in
  let promise := new_promise (settlement xhr net) in
  promise <- match routeWith options with
             | Some history =>
                 Promise_prototype_then promise
                   (Some (route_success history)) (Some (route_failure history))
             | None => ret promise
             end ;;
  ret (makeCancellablePromise promise (OnCancel (Some xhr))).

(** [JsonApi.get], [JsonApi.post], ... *)
Definition JsonApi (method : Method) := wrap (api_fn JSON_parse method).
Definition JsonApi_get := JsonApi GET.

(** A chain of [then] and [catch] calls, each on the promise the call before
    returned. *)
Inductive ChainLink :=
| ThenLink (onfulfilled onrejected : option Handler)
| CatchLink (onrejected : option Handler).

Definition link_call (p : Promise) (l : ChainLink) : M W Promise :=
  match l with
  | ThenLink f g => then_ p f g
  | CatchLink g => catch_ p g
  end.

Fixpoint chain (p : Promise) (links : list ChainLink) : M W Promise :=
  match links with
  | [] => ret p
  | l :: rest => q <- link_call p l ;; chain q rest
  end.

End Promises.

(** ** loader-hoc.tsx *)

(** A callback the caller passes as a prop. To the component it is the value
    it returns, or the exception it throws. *)
Definition Hook : Type := JsVal -> Completion JsVal.

(** The props of the loader component. [passthru] holds the props the
    component does not name. *)
Record Props := {
  id : JsVal;
  apiQuery : JsVal;
  onError : option Hook;
  onLoad : option Hook;
  passthru : list (string * JsVal)
}.

(** [InnerState]; an absent field is [undefined]. *)
Record InnerState := {
  data : JsVal;
  errorStatus : JsVal
}.

Definition initial_state : InnerState :=
  {| data := JUndefined; errorStatus := JUndefined |}.

(** The argument of [setState]: the fields it writes. *)
Record Update := {
  new_data : option JsVal;
  new_errorStatus : option JsVal
}.

Definition merge (u : Update) (s : InnerState) : InnerState :=
  {| data := match new_data u with Some d => d | None => data s end;
     errorStatus := match new_errorStatus u with Some e => e | None => errorStatus s end |}.

Inductive HookName := OnError | OnLoad.

(** What the component did, in order. *)
Inductive Event :=
| SetState (u : Update)
| Called (hook : HookName) (argument : JsVal).

Record Component := {
  state : InnerState;
  events : list Event
}.

(** The options of [LoaderHOC]. The two renderers are not among them: what
    they return is opaque, and [Rendered] records which one was called. *)
Record LoaderOptions := {
  serverAdapter : option (JsVal -> JsVal);
  getApiQuery : option (Props -> JsVal);
  getUrlParams : option (Props -> JsVal);
  renderOnEmptyResult : bool
}.

Inductive Rendered :=
| ErrorPlaceholder (text : JsVal)
| LoadingPlaceholder
| DisplayElement (props : list (string * JsVal)) (hooks : Props).

(** [{...target, ...source}], on the properties of [target]. *)
Definition spread_into (target source : list (string * JsVal)) : list (string * JsVal) :=
  fold_left (fun acc p => set_own (fst p) (snd p) acc) source target.

Definition Array_isArray (v : JsVal) : bool :=
  match v with JArr _ _ => true | _ => false end.

Definition array_length (v : JsVal) : nat :=
  match v with JArr es _ => length es | _ => 0 end.

Section Loader.

Variable JSON_parse : string -> option JsVal.
Variable urlFor : JsVal -> Completion string.

(** [generatePath], built on the path-to-regexp library. *)
Variable generatePath : string -> JsVal -> string.

Variable apiUrl : string.
Variable options : LoaderOptions.

Definition the_serverAdapter : JsVal -> JsVal :=
  match serverAdapter options with
  | Some f => f
  | None => fun x => x
  end.

Definition the_getApiQuery : Props -> JsVal :=
  match getApiQuery options with
  | Some f => f
  | None => fun props =>
      if truthy (apiQuery props) then apiQuery props else JObj [("id", id props)]
  end.

Definition the_getUrlParams : Props -> JsVal :=
  match getUrlParams options with
  | Some f => f
  | None => fun _ => JObj []
  end.

Definition setState (u : Update) : M Component JsVal :=
  modify (fun c => {| state := merge u (state c);
                      events := (events c ++ [SetState u])%list |}) ;;;
  ret JUndefined.

Definition call_hook (name : HookName) (hook : Hook) : Handler Component :=
  fun argument =>
    modify (fun c => {| state := state c;
                        events := (events c ++ [Called name argument])%list |}) ;;;
    lift (hook argument).

(** [load(props = this.props)]. *)
Definition load (this_props props : Props) (net : Network) : M Component unit :=
  let onError := onError props in
  let computedApiQuery := the_getApiQuery props in
  let computedUrl := generatePath apiUrl (the_getUrlParams props) in
  request <- JsonApi_get JSON_parse urlFor computedUrl computedApiQuery
               (no_options Component) net ;;
  promise <- then_ request
    (Some (fun response =>
       setState {| new_data := Some (the_serverAdapter response);
                   new_errorStatus := None |}))
    (Some (fun errorStatus =>
       match onError with
       | Some hook =>
           answer <- call_hook OnError hook errorStatus ;;
           if negb (strict_eq answer (JBool false))
           then setState {| new_data := None; new_errorStatus := Some errorStatus |} ;;;
                ret JUndefined
           else ret JUndefined
       | None =>
           setState {| new_data := None; new_errorStatus := Some errorStatus |} ;;;
           ret JUndefined
       end)) ;;
  match onLoad this_props with
  | Some hook => then_ promise (Some (call_hook OnLoad hook)) None ;;; ret tt
  | None => ret tt
  end.

(** How the promise of the request [load] sends ends. *)
Definition request_settlement (props : Props) (net : Network) : Outcome :=
  settlement
    (get_fn JSON_parse (generatePath apiUrl (the_getUrlParams props))
       (the_getApiQuery props) resolve reject)
    net.

Definition componentWillMount (this_props : Props) (net : Network) : M Component unit :=
  load this_props this_props net.

Definition componentWillReceiveProps (this_props next : Props) (net : Network)
  : M Component unit :=
  if negb (deepCompare (the_getApiQuery this_props) (the_getApiQuery next))
     || negb (deepCompare (the_getUrlParams this_props) (the_getUrlParams next))
  then
    setState {| new_data := Some JNull; new_errorStatus := None |} ;;;
    load this_props next net
  else ret tt.

(** [render()]. The display component receives
    [{data, ...getApiQuery(this.props), ...innerProps, onServerChange}]; the
    callbacks among [innerProps] travel in [hooks]. *)
Definition render (this_props : Props) (s : InnerState) : Rendered :=
  let data := data s in
  let errorStatus := errorStatus s in
  if truthy data then
    if Array_isArray data && (array_length data =? 0)%nat
       && negb (renderOnEmptyResult options)
    then ErrorPlaceholder (JStr "No results")
    else
      DisplayElement
        (spread_into
           (spread_into [("data", data)] (own_entries (the_getApiQuery this_props)))
           (passthru this_props))
        this_props
  else if truthy errorStatus then ErrorPlaceholder errorStatus
  else LoadingPlaceholder.

End Loader.

(** ** A reference [JSON.parse]

    The development is parametric in [JSON.parse]. For closed examples,
    [json_parse] reads the JSON grammar without fractions, exponents and
    [\u] escapes, where the values are those of the model; it is meant for
    texts whose object keys are not array indices, which JavaScript would
    enumerate first. *)

Definition is_ws (c : ascii) : bool :=
  existsb (Nat.eqb (nat_of_ascii c)) [32; 9; 10; 13].

Definition is_digit (c : ascii) : bool := between 48 57 (nat_of_ascii c).

Fixpoint skip_ws (s : string) : string :=
  match s with
  | String c rest => if is_ws c then skip_ws rest else s
  | EmptyString => s
  end.

(** [s] without the prefix [literal]. *)
Fixpoint expect (literal s : string) : option string :=
  match literal, s with
  | EmptyString, _ => Some s
  | String a l', String b s' => if Ascii.eqb a b then expect l' s' else None
  | String _ _, EmptyString => None
  end.

Fixpoint json_digits (s : string) (acc : Z) : Z * string :=
  match s with
  | String c rest =>
      if is_digit c
      then json_digits rest (10 * acc + Z.of_nat (nat_of_ascii c - 48))
      else (acc, s)
  | EmptyString => (acc, s)
  end.

(** An integer literal, after its sign: no leading zero, and nothing of a
    fraction or an exponent behind it. *)
Definition json_natural (s : string) : option (Z * string) :=
  match s with
  | String c rest =>
      if is_digit c then
        let '(n, rest') := json_digits s 0 in
        let leading_zero :=
          (nat_of_ascii c =? 48)%nat
          && match rest with String d _ => is_digit d | EmptyString => false end in
        let goes_on :=
          match rest' with
          | String d _ => existsb (Nat.eqb (nat_of_ascii d)) [46; 101; 69]
          | EmptyString => false
          end in
        if leading_zero || goes_on then None else Some (n, rest')
      else None
  | EmptyString => None
  end.

(** A string literal, after its opening quote. *)
Fixpoint json_string (s : string) : option (string * string) :=
  match s with
  | EmptyString => None
  | String c rest =>
      let n := nat_of_ascii c in
      if (n =? 34)%nat then Some (EmptyString, rest)
      else if (n =? 92)%nat then
        match rest with
        | String e rest' =>
            let m := nat_of_ascii e in
            let decoded :=
              if (m =? 34)%nat || (m =? 92)%nat || (m =? 47)%nat then Some e
              else if (m =? 98)%nat then Some (ascii_of_nat 8)
              else if (m =? 102)%nat then Some (ascii_of_nat 12)
              else if (m =? 110)%nat then Some (ascii_of_nat 10)
              else if (m =? 114)%nat then Some (ascii_of_nat 13)
              else if (m =? 116)%nat then Some (ascii_of_nat 9)
              else None in
            match decoded, json_string rest' with
            | Some d, Some (t, r) => Some (String d t, r)
            | _, _ => None
            end
        | EmptyString => None
        end
      else if (n <? 32)%nat then None
      else
        match json_string rest with
        | Some (t, r) => Some (String c t, r)
        | None => None
        end
  end.

Fixpoint json_value (fuel : nat) (s : string) : option (JsVal * string) :=
  match fuel with
  | O => None
  | S fuel' =>
      match skip_ws s with
      | EmptyString => None
      | String c rest as s' =>
          let n := nat_of_ascii c in
          if (n =? 110)%nat then option_map (pair JNull) (expect "null" s')
          else if (n =? 116)%nat then option_map (pair (JBool true)) (expect "true" s')
          else if (n =? 102)%nat then option_map (pair (JBool false)) (expect "false" s')
          else if (n =? 34)%nat then
            match json_string rest with
            | Some (t, r) => Some (JStr t, r)
            | None => None
            end
          else if (n =? 45)%nat then
            match json_natural rest with
            | Some (z, r) => Some (JNum (- z), r)
            | None => None
            end
          else if is_digit c then
            match json_natural s' with
            | Some (z, r) => Some (JNum z, r)
            | None => None
            end
          else if (n =? 91)%nat then
            match skip_ws rest with
            | String d r =>
                if (nat_of_ascii d =? 93)%nat then Some (JArr [] [], r)
                else match json_elements fuel' rest with
                     | Some (es, r') => Some (JArr es [], r')
                     | None => None
                     end
            | EmptyString => None
            end
          else if (n =? 123)%nat then
            match skip_ws rest with
            | String d r =>
                if (nat_of_ascii d =? 125)%nat then Some (JObj [], r)
                else match json_members fuel' [] rest with
                     | Some (ps, r') => Some (JObj ps, r')
                     | None => None
                     end
            | EmptyString => None
            end
          else None
      end
  end
with json_elements (fuel : nat) (s : string) : option (list JsVal * string) :=
  match fuel with
  | O => None
  | S fuel' =>
      match json_value fuel' s with
      | Some (v, r) =>
          match skip_ws r with
          | String c r' =>
              if (nat_of_ascii c =? 44)%nat then
                match json_elements fuel' r' with
                | Some (vs, r'') => Some (v :: vs, r'')
                | None => None
                end
              else if (nat_of_ascii c =? 93)%nat then Some ([v], r')
              else None
          | EmptyString => None
          end
      | None => None
      end
  end
with json_members (fuel : nat) (acc : list (string * JsVal)) (s : string)
  : option (list (string * JsVal) * string) :=
  match fuel with
  | O => None
  | S fuel' =>
      match skip_ws s with
      | String q r0 =>
          if (nat_of_ascii q =? 34)%nat then
            match json_string r0 with
            | Some (k, r1) =>
                match skip_ws r1 with
                | String colon r2 =>
                    if (nat_of_ascii colon =? 58)%nat then
                      match json_value fuel' r2 with
                      | Some (v, r3) =>
                          let acc' := set_own k v acc in
                          match skip_ws r3 with
                          | String c r4 =>
                              if (nat_of_ascii c =? 44)%nat then json_members fuel' acc' r4
                              else if (nat_of_ascii c =? 125)%nat then Some (acc', r4)
                              else None
                          | EmptyString => None
                          end
                      | None => None
                      end
                    else None
                | EmptyString => None
                end
            | None => None
            end
          else None
      | EmptyString => None
      end
  end.

Definition json_parse (text : string) : option JsVal :=
  match json_value (2 * String.length text + 2) text with
  | Some (v, rest) =>
      match skip_ws rest with
      | EmptyString => Some v
      | String _ _ => None
      end
  | None => None
  end.

(** A JSON text is written with [dq] for the quote character. *)
Definition dq : string := String quote_char EmptyString.

(** ** Vocabulary of the statements *)

(** A non-null object: what [typeof v === 'object' && v !== null] tests. *)
Definition is_plain_object (v : JsVal) : bool := is_object v && negb (is_null v).

(** The query string as the specification words it: the keys whose value is
    neither [null] nor [undefined], each as [key=value] with the value
    URL-encoded. *)
Definition query_pairs (obj : JsVal) : list string :=
  map (fun k => k ++ "=" ++ encodeURIComponent (ToString (or_undefined (getProp obj k))))
      (filter (fun k => negb (is_nullish (or_undefined (getProp obj k)))) (Object_keys obj)).


(** A promise whose [cancel] and patched methods all hold the closure [c]. *)
Definition cancellable_with (c : CancelFn) (p : Promise) : Prop :=
  cancel p = Some c
  /\ (exists t, own_then p = Patch t c)
  /\ (exists k, own_catch p = Patch k c).

(** The last character of a string. *)
Fixpoint last_char (s : string) : option ascii :=
  match s with
  | EmptyString => None
  | String c EmptyString => Some c
  | String _ rest => last_char rest
  end.

(** ** A page to run closed examples in *)

Record Page := {
  entries : list JsVal;
  aborted : list string;
  caught : list JsVal
}.

Definition page_location (w : Page) : JsVal :=
  match entries w with
  | l :: _ => l
  | [] => JObj [("pathname", JStr "/")]
  end.

Definition page_history : History Page :=
  {| location := page_location;
     push := fun l w => {| entries := l :: entries w; aborted := aborted w; caught := caught w |};
     replace := fun l w => {| entries := l :: tl (entries w); aborted := aborted w;
                              caught := caught w |} |}.

Definition page_abort (x : XHR Outcome) : M Page unit :=
  modify (fun w => {| entries := entries w; aborted := (aborted w ++ [xhr_url x])%list;
                      caught := caught w |}).

Definition page_urlFor (redirect : JsVal) : Completion string := Return "/".

(** A [catch] handler of the caller that keeps what it is given. *)
Definition keep_error : Handler Page := fun e =>
  modify (fun w => {| entries := entries w; aborted := aborted w;
                      caught := (caught w ++ [e])%list |}) ;;;
  ret JUndefined.

Definition blank_page : Page := {| entries := []; aborted := []; caught := [] |}.

Definition no_component : Component := {| state := initial_state; events := [] |}.

Definition plain_options : LoaderOptions :=
  {| serverAdapter := None; getApiQuery := None; getUrlParams := None;
     renderOnEmptyResult := false |}.

Definition lenient_options : LoaderOptions :=
  {| serverAdapter := None; getApiQuery := None; getUrlParams := None;
     renderOnEmptyResult := true |}.

Definition same_path (path : string) (params : JsVal) : string := path.

Definition answer (code : Z) (body : string) (header : option string) : Network :=
  Answered {| status := code; responseText := body; Location := header |}.

(** The depth of the deepest property, and of the deepest element. *)
Definition props_depth (ps : list (string * JsVal)) : nat :=
  fold_right (fun p m => Nat.max (depth (snd p)) m) 0 ps.

Definition elems_depth (es : list JsVal) : nat :=
  fold_right (fun e m => Nat.max (depth e) m) 0 es.

(** The value [doSuccess] hands to its callback: the parsed body, with
    [redirectTo] when a Location header came; the raw text when parsing or
    the assignment threw. *)
Definition success_value (JSON_parse : string -> option JsVal) (r : RawResult) : JsVal :=
  match JSON_parse (responseText r) with
  | None => JStr (responseText r)
  | Some parsed =>
      if given (Location r) then
        match assign parsed "redirectTo"
                (JStr (match Location r with Some l => l | None => "" end)) with
        | Return v => v
        | Throw _ => JStr (responseText r)
        end
      else parsed
  end.

Definition raw_or_fallback (response : string) : JsVal :=
  JStr (if response =? "" then unexpected_response else response).

(** The value [doError] hands to its callback. *)
Definition failure_value (JSON_parse : string -> option JsVal) (r : RawResult) : JsVal :=
  match JSON_parse (responseText r) with
  | None => raw_or_fallback (responseText r)
  | Some parsed =>
      match getProp parsed "error" with
      | None => raw_or_fallback (responseText r)
      | Some error =>
          let message := if strict_eq error (JStr "") then JStr no_message else error in
          if truthy message then message else parsed
      end
  end.

(** The bodies of the examples of the specification. *)
Definition body_bad_id : string :=
  "{" ++ dq ++ "error" ++ dq ++ ":" ++ dq ++ "bad id" ++ dq ++ "}".

Definition body_empty_error : string :=
  "{" ++ dq ++ "error" ++ dq ++ ":" ++ dq ++ dq ++ "}".

(** [{"error":null}]. *)
Definition body_null_error : string :=
  "{" ++ dq ++ "error" ++ dq ++ ":null}".


(** [{data: d}]: the update of its success branch. *)
Definition data_update (d : JsVal) : Update :=
  {| new_data := Some d; new_errorStatus := None |}.

(** Props of the examples: a loader given [id={1}], one given callbacks, and
    one whose query has a parameter called [data]. *)
Definition props_id_1 : Props :=
  {| id := JNum 1; apiQuery := JUndefined; onError := None; onLoad := None;
     passthru := [] |}.


Definition props_data_query : Props :=
  {| id := JUndefined; apiQuery := JObj [("data", JStr "raw")]; onError := None;
     onLoad := None; passthru := [] |}.

(** A loader whose [id] did not parse: [id={parseInt(...)}] gone wrong. *)
Definition props_id_NaN : Props :=
  {| id := JNaN; apiQuery := JUndefined; onError := None; onLoad := None;
     passthru := [] |}.

(** ** helpers.ts: [filterNulls] and [objectDiff] *)

(** [v.hasOwnProperty(k)]: the enumerable own properties, and the [length] of
    an array or a string and the [message] of an error, which are own and not
    enumerable. *)
Definition hasOwnProperty (v : JsVal) (k : string) : bool :=
  existsb (String.eqb k) (Object_keys v)
  || match v with
     | JArr _ _ | JStr _ => k =? "length"
     | JError _ _ _ => k =? "message"
     | _ => false
     end.

(** One turn of the loop of [filterNulls]; the keys [for ... in] gives are
    own, so [hasOwnProperty] holds. *)
Definition filterNulls_step (obj : JsVal) (newObj : list (string * JsVal)) (key : string)
  : list (string * JsVal) :=
  let v := or_undefined (getProp obj key) in
  if negb (strict_eq v JNull) then set_own key v newObj else newObj.

Definition filterNulls (obj : JsVal) : JsVal :=
  JObj (fold_left (filterNulls_step obj) (Object_keys obj) []).

(** The test of the first loop of [objectDiff] on [lhs[key]] and [rhs[key]]. *)
Definition differs (l r : JsVal) : bool :=
  negb (deepCompare l r)
  && negb (strict_eq l JNull && strict_eq r JUndefined)
  && negb (strict_eq l JUndefined && strict_eq r JNull).

(** The first loop, over the keys of [lhs]: reading [rhs[key]] throws when
    [rhs] is [null] or [undefined]. *)
Fixpoint objectDiff_left (lhs rhs : JsVal) (keys : list string)
    (newObj : list (string * JsVal)) : Completion (list (string * JsVal)) :=
  match keys with
  | [] => Return newObj
  | key :: rest =>
      match getProp rhs key with
      | None => Throw (TypeError "Cannot read properties")
      | Some r =>
          let l := or_undefined (getProp lhs key) in
          objectDiff_left lhs rhs rest
            (if differs l r then set_own key r newObj else newObj)
      end
  end.

(** One turn of the second loop, over the keys of [rhs]. *)
Definition objectDiff_right (lhs rhs : JsVal) (newObj : list (string * JsVal))
    (key : string) : list (string * JsVal) :=
  if truthy rhs && hasOwnProperty rhs key && negb (truthy lhs && hasOwnProperty lhs key)
  then set_own key (or_undefined (getProp rhs key)) newObj
  else newObj.

(** Simple object key-value difference: for each key of either object, the
    value of the right one where it differs. *)
Definition objectDiff (lhs rhs : JsVal) : Completion JsVal :=
  match objectDiff_left lhs rhs (Object_keys lhs) [] with
  | Throw e => Throw e
  | Return newObj =>
      Return (JObj (fold_left (objectDiff_right lhs rhs) (Object_keys rhs) newObj))
  end.

(** No [NaN] in a value, at any depth. *)
Fixpoint NaN_free (v : JsVal) : bool :=
  let props_free :=
    fix go (ps : list (string * JsVal)) : bool :=
      match ps with
      | [] => true
      | (_, x) :: rest => NaN_free x && go rest
      end in
  match v with
  | JNaN => false
  | JObj ps => props_free ps
  | JArr es ps =>
      (fix go (l : list JsVal) : bool :=
         match l with [] => true | x :: rest => NaN_free x && go rest end) es
      && props_free ps
  | JBlob ps _ _ => props_free ps
  | JFile ps _ _ _ => props_free ps
  | JError ps _ _ => props_free ps
  | _ => true
  end.

Definition props_NaN_free (ps : list (string * JsVal)) : bool :=
  forallb (fun p => NaN_free (snd p)) ps.

(** [Object.assign({}, a, b)] on the properties of [a]. *)
Definition Object_assign (target : list (string * JsVal)) (source : JsVal)
  : list (string * JsVal) :=
  spread_into target (own_entries source).

(** Whether [objectDiff] reports a key: it differs in the first loop, or the
    second loop finds it in [rhs] only. *)
Definition reported (lhs rhs : JsVal) (k : string) : bool :=
  (existsb (String.eqb k) (Object_keys lhs)
   && differs (or_undefined (getProp lhs k)) (or_undefined (getProp rhs k)))
  || (existsb (String.eqb k) (Object_keys rhs)
      && (truthy rhs && hasOwnProperty rhs k && negb (truthy lhs && hasOwnProperty lhs k))).

(** The first loop of [objectDiff] when reading [rhs] does not throw. *)
Definition objectDiff_left_step (lhs rhs : JsVal) (newObj : list (string * JsVal))
    (key : string) : list (string * JsVal) :=
  if differs (or_undefined (getProp lhs key)) (or_undefined (getProp rhs key))
  then set_own key (or_undefined (getProp rhs key)) newObj
  else newObj.


(** ** urlFor.ts *)

Definition slash : ascii := ascii_of_nat 47.

(** The longest prefix of characters that [stop] rejects, and the rest: what
    [[^...]+] takes. *)
Fixpoint run_until (stop : ascii -> bool) (s : string) : string * string :=
  match s with
  | EmptyString => (EmptyString, EmptyString)
  | String c rest =>
      if stop c then (EmptyString, s)
      else let (run, rest') := run_until stop rest in (String c run, rest')
  end.

Definition is_slash (c : ascii) : bool := Ascii.eqb c slash.

(** [pathname.match(/^\/([^\/]+)\/([^\/]+)/)]: its two groups, or [None]
    for [null]. *)
Definition match_controller_action (pathname : string) : option (string * string) :=
  match pathname with
  | String c rest =>
      if is_slash c then
        let (controller, rest1) := run_until is_slash rest in
        match controller, rest1 with
        | String _ _, String _ rest2 =>
            let (action, _) := run_until is_slash rest2 in
            match action with
            | String _ _ => Some (controller, action)
            | EmptyString => None
            end
        | _, _ => None
        end
      else None
  | EmptyString => None
  end.

Definition remove_key (k : string) (ps : list (string * JsVal)) : list (string * JsVal) :=
  filter (fun p => negb (fst p =? k)) ps.

(** [delete v[k]], for a key that is neither an index nor an accessor. *)
Definition delete (v : JsVal) (k : string) : JsVal :=
  match v with
  | JObj ps => JObj (remove_key k ps)
  | JArr es ps => JArr es (remove_key k ps)
  | JBlob ps c t => JBlob (remove_key k ps) c t
  | JFile ps n c t => JFile (remove_key k ps) n c t
  | JError ps n m => JError (remove_key k ps) n m
  | _ => v
  end.

(** [Object.keys(opts).map(key => [key, opts[key]].map(encodeURIComponent)
    .join('=')).join('&')]. *)
Definition optsStr (opts : JsVal) : string :=
  String.concat "&"
    (map (fun key =>
            String.concat "="
              (map encodeURIComponent [key; ToString (or_undefined (getProp opts key))]))
         (Object_keys opts)).

(** The interpreter [urlFor] starts with, on the page at [pathname]: a port
    of [url_for]. It deletes [action] and [controller] from the object it is
    given, so it is returned with the URL. *)
Definition urlForInner (pathname : string) (opts : JsVal) : Completion (string * JsVal) :=
  let opts := match opts with JUndefined => JObj [] | _ => opts end in
  match match_controller_action pathname with
  | None => Throw (TypeError "null is not iterable")
  | Some (match_controller, match_action) =>
      match getProp opts "action" with
      | None => Throw (TypeError "Cannot read properties")
      | Some result =>
          let action := if truthy result then result else JStr match_action in
          let opts := delete opts "action" in
          let result := or_undefined (getProp opts "controller") in
          let controller := if truthy result then result else JStr match_controller in
          let opts := delete opts "controller" in
          let query := optsStr opts in
          Return ("/" ++ ToString controller ++ "/" ++ ToString action
                  ++ (if query =? "" then "" else "?" ++ query),
                  opts)
      end
  end.

(** [urlFor] while no interpreter has replaced the first. *)
Definition default_urlFor (pathname : string) (opts : JsVal) : Completion string :=
  match urlForInner pathname opts with
  | Return (url, _) => Return url
  | Throw e => Throw e
  end.

(** A string without [/], and a path segment: such a string that is not
    empty. *)
Fixpoint no_slash (s : string) : bool :=
  match s with
  | EmptyString => true
  | String c rest => negb (is_slash c) && no_slash rest
  end.

Definition segment (s : string) : bool := negb (s =? "") && no_slash s.

(** What may follow the two segments the interpreter reads: nothing, or a
    [/] and anything. *)
Definition path_tail (s : string) : bool :=
  match s with
  | EmptyString => true
  | String c _ => is_slash c
  end.

(** What the interpreter takes for [k]: the option when it is truthy, the
    segment of the current path otherwise. *)
Definition option_or (ps : list (string * JsVal)) (k : string) (current : string) : JsVal :=
  let v := or_undefined (assoc k ps) in
  if truthy v then v else JStr current.

(** ** generate-path.ts

    The version of the module that takes absolute URLs. [compile] is the
    path-to-regexp library's; what it returns is called with
    [{pretty: true}]. *)

Definition Generator : Type := JsVal -> Completion string.

Record CacheEntry := {
  protocolAndHostname : string;
  generator : Generator
}.

(** The variables of the module; [cache] is a plain object used as a map. *)
Record PathCache := {
  cache : list (string * CacheEntry);
  cacheCount : N
}.

Definition cacheLimit : N := 10000.

Definition empty_cache : PathCache := {| cache := []; cacheCount := 0 |}.

(** What every object inherits from [Object.prototype]: under these names
    [cache[path]] is a function (an object for [__proto__]) before anything
    is stored. *)
Definition inherited (path : string) : bool :=
  existsb (String.eqb path)
    ["constructor"; "__defineGetter__"; "__defineSetter__"; "hasOwnProperty";
     "__lookupGetter__"; "__lookupSetter__"; "isPrototypeOf"; "propertyIsEnumerable";
     "toString"; "valueOf"; "__proto__"; "toLocaleString"].

Fixpoint own_entry (path : string) (entries : list (string * CacheEntry))
  : option CacheEntry :=
  match entries with
  | [] => None
  | (k, e) :: rest => if path =? k then Some e else own_entry path rest
  end.

(** [cache[path]]. *)
Inductive Cached :=
| Stored (e : CacheEntry)
| Inherited
| Undefined.

Definition cached (path : string) (st : PathCache) : Cached :=
  match own_entry path (cache st) with
  | Some e => Stored e
  | None => if inherited path then Inherited else Undefined
  end.

(** [/^https?:\/\//]: the text matched and what follows it. *)
Definition scheme (path : string) : option (string * string) :=
  match expect "https://" path with
  | Some rest => Some ("https://", rest)
  | None =>
      match expect "http://" path with
      | Some rest => Some ("http://", rest)
      | None => None
      end
  end.

Definition host_stop (c : ascii) : bool := is_slash c || Ascii.eqb c "@".

(** The first lines of [compilePath]: [protocolAndHostname] and the path
    without it. [/^https?:\/\/[^\/@]+\//] has to match once the scheme did:
    destructuring the [null] of a failed match throws. *)
Definition split_host (path : string) : Completion (string * string) :=
  match scheme path with
  | None => Return (EmptyString, path)
  | Some (sch, rest) =>
      match run_until host_stop rest with
      | (String c host, String sep p) =>
          if is_slash sep then Return (sch ++ String c host ++ "/", p)
          else Throw (TypeError "null is not iterable")
      | _ => Throw (TypeError "null is not iterable")
      end
  end.

Section PathToRegexp.

Variable compile : string -> Completion Generator.

(** [compilePath]. [None] is a member of [Object.prototype] returned as if it
    were an entry: it has neither of the two fields. *)
Definition compilePath (path : string) : M PathCache (option CacheEntry) :=
  hp <- lift (split_host path) ;;
  let '(protocolAndHostname, path) := hp in
  fun st =>
    match cached path st with
    | Stored e => (Return (Some e), st)
    | Inherited => (Return None, st)
    | Undefined =>
        match compile path with
        | Throw e => (Throw e, st)
        | Return generator =>
            let e := {| protocolAndHostname := protocolAndHostname;
                        generator := generator |} in
            (Return (Some e),
             if (cacheCount st <? cacheLimit)%N
             then {| cache := (path, e) :: cache st; cacheCount := cacheCount st + 1 |}
             else st)
        end
    end.

(** [generatePath(path, params)]. *)
Definition generatePath (path : string) (params : JsVal) : M PathCache string :=
  found <- compilePath path ;;
  if path =? "/" then ret path
  else
    match found with
    | Some e => s <- lift (generator e params) ;; ret (protocolAndHostname e ++ s)
    | None => throw (TypeError "generator is not a function")
    end.

End PathToRegexp.

(** [prefix + generator(params)]. *)
Definition prefixed (prefix : string) (c : Completion string) : Completion string :=
  match c with
  | Return s => Return (prefix ++ s)
  | Throw e => Throw e
  end.

(** The counter counts the entries, stays within the limit, and no key is
    stored twice or under an inherited name. *)
Definition well_formed (st : PathCache) : Prop :=
  cacheCount st = N.of_nat (length (cache st))
  /\ (cacheCount st <= cacheLimit)%N
  /\ NoDup (map fst (cache st))
  /\ Forall (fun k => inherited k = false) (map fst (cache st)).

(** Every entry is what [compile] makes of its key, without a host. *)
Definition memo_of (compile : string -> Completion Generator) (st : PathCache) : Prop :=
  forall p e, own_entry p (cache st) = Some e ->
    protocolAndHostname e = EmptyString /\ compile p = Return (generator e).

(** ** composer-hoc.tsx

    A function among the values ([setState] given an updater, a callback that
    is not callable) is outside [JsVal]; a callback prop is a function or
    absent. *)

Module Composer.

(** [integrationSpec]. [serialize] may return a promise, and is awaited:
    [Throw] is what it throws or rejects with. *)
Record Integration := {
  defaultState : JsVal;
  (** [integrationSpec.hasOwnProperty('deserialize')] *)
  canEdit : bool;
  deserialize : option (JsVal -> Completion JsVal);
  serialize : JsVal -> Completion JsVal;
  primaryKey : option string;
  getUrlParams : option (JsVal -> Completion JsVal)
}.

(** A callback receives a [CustomEvent]; it is given here the [detail] of the
    event. *)
Record Props := {
  defaultValue : JsVal;
  existingObject : JsVal;
  onSuccess : option (JsVal -> Completion unit);
  onError : option (JsVal -> Completion unit)
}.

Inductive Callback := OnSuccess | OnError.

(** The component: [this.state], and the callbacks it called, in order. *)
Record Component := {
  state : list (string * JsVal);
  calls : list (Callback * JsVal)
}.

Definition both_given : string :=
  "Either a default object or an existing object can be defined, but not both.".

Definition create_only : string :=
  "This Composer class can only create. It cannot update.".

Definition Error (message : string) : JsVal := JError [] "Error" message.

Definition gets {S A} (f : S -> A) : M S A := fun s => (Return (f s), s).

(** [this.setState(partialState)]: React merges the own properties of an
    object, does nothing for [null] and [undefined], and throws for another
    primitive. *)
Definition setState (partialState : JsVal) : M Component unit :=
  if is_object partialState || strict_eq partialState JUndefined
  then modify (fun c => {| state := Object_assign (state c) partialState;
                           calls := calls c |})
  else throw (Error "setState(...): takes an object of state variables to update").

Definition call (name : Callback) (callback : option (JsVal -> Completion unit))
    (detail : JsVal) : M Component unit :=
  match callback with
  | Some f =>
      modify (fun c => {| state := state c;
                          calls := (calls c ++ [(name, detail)])%list |}) ;;;
      lift (f detail)
  | None => ret tt
  end.

Section Class.

Variable JSON_parse : string -> option JsVal.
Variable urlFor : JsVal -> Completion string.
Variable generatePath : string -> JsVal -> Completion string.

Variable saveUrl : string.
Variable integrationSpec : Integration.

Definition the_primaryKey : string :=
  match primaryKey integrationSpec with
  | Some k => if k =? "" then "id" else k
  | None => "id"
  end.

(** [this.deserialize(v)]. *)
Definition call_deserialize {S} (v : JsVal) : M S JsVal :=
  match deserialize integrationSpec with
  | Some f => lift (f v)
  | None => throw (TypeError "deserialize is not a function")
  end.

(** The constructor, from [this.state = {}] on. *)
Definition constructor (props : Props) : M Component unit :=
  let defaultValue := defaultValue props in
  let existingObject := existingObject props in
  if truthy defaultValue && truthy existingObject then throw (Error both_given)
  else if negb (canEdit integrationSpec) && truthy existingObject
  then throw (Error create_only)
  else
    fromDefault <- (if truthy defaultValue
                    then d <- call_deserialize defaultValue ;; ret (filterNulls d)
                    else ret defaultValue) ;;
    fromExisting <- (if truthy existingObject then call_deserialize existingObject
                     else ret existingObject) ;;
    modify (fun c =>
      {| state :=
           [("data",
             JObj (Object_assign
                     (Object_assign
                        (Object_assign [] (defaultState integrationSpec))
                        fromDefault)
                     fromExisting))];
         calls := calls c |}).

Definition componentWillReceiveProps (this_props next : Props) : M Component unit :=
  if negb (canEdit integrationSpec) && truthy (existingObject next)
  then throw (Error create_only)
  else if truthy (defaultValue this_props) && truthy (existingObject next)
          || truthy (existingObject this_props) && truthy (defaultValue next)
  then throw (Error both_given)
  else
    (if canEdit integrationSpec
        && negb (deepCompare (defaultValue this_props) (defaultValue next))
     then d <- call_deserialize (defaultValue next) ;; setState d
     else ret tt) ;;;
    (if canEdit integrationSpec
        && negb (deepCompare (existingObject this_props) (existingObject next))
     then d <- call_deserialize (existingObject next) ;; setState d
     else ret tt).

(** [buildAttributes]; [Throw] is the rejection of the promise it returns. *)
Definition buildAttributes {S} (initial updated : JsVal) : M S JsVal :=
  serialized <- lift (serialize integrationSpec updated) ;;
  if canEdit integrationSpec && truthy initial then
    d <- call_deserialize initial ;;
    before <- lift (serialize integrationSpec d) ;;
    diff <- lift (objectDiff before serialized) ;;
    changed <- read diff the_primaryKey ;;
    diff <- (if truthy changed
             then lift (assign diff ("updated_" ++ the_primaryKey) changed)
             else ret diff) ;;
    key <- read initial the_primaryKey ;;
    lift (assign diff the_primaryKey key)
  else ret serialized.

Definition isNew (props : Props) : bool := negb (truthy (existingObject props)).

Definition apiRequest (props : Props) (url : string) (data : JsVal) (net : Network)
  : M Component Promise :=
  if isNew props
  then JsonApi JSON_parse urlFor POST url data (no_options Component) net
  else JsonApi JSON_parse urlFor PATCH url data (no_options Component) net.

(** [Object.keys(v)], which throws on [undefined] and [null]. *)
Definition keys_of {S} (v : JsVal) : M S (list string) :=
  if is_nullish v then throw (TypeError "Cannot convert undefined or null to object")
  else ret (Object_keys v).

(** The two reactions of [submit]. An event made without [cancelable] cannot
    be prevented, so [e.defaultPrevented] is false after the callback. *)
Definition submitted (props : Props) : Handler Component :=
  fun response =>
    serverMessage <- read response "message" ;;
    id <- read response "id" ;;
    redirectTo <- read response "redirectTo" ;;
    call OnSuccess (onSuccess props)
      (JObj [("serverMessage", serverMessage); ("id", id)]) ;;;
    (if truthy redirectTo
     then setState (JObj [("redirectTo", redirectTo); ("serverMessage", serverMessage)])
     else setState (JObj [("serverMessage", serverMessage)])) ;;;
    ret JUndefined.

Definition refused (props : Props) : Handler Component :=
  fun errorMessage =>
    call OnError (onError props) (JObj [("errorMessage", errorMessage)]) ;;;
    setState (JObj [("errorMessage", errorMessage)]) ;;;
    ret JUndefined.

(** [return request.then(...)], from [let request] on: how the promise
    returned ends. *)
Definition send_attributes (props : Props) (url : string) (attributes : JsVal)
    (net : Network) : M Component Outcome :=
  request <- apiRequest props url attributes net ;;
  promise <- then_ request (Some (submitted props)) (Some (refused props)) ;;
  ret (outcome promise).

(** [submit()]: how the promise it returns ends. *)
Definition submit (props : Props) (net : Network) : M Component Outcome :=
  try_catch
    (data <- gets (fun c => or_undefined (assoc "data" (state c))) ;;
     attributes <- buildAttributes (existingObject props) data ;;
     keys <- keys_of attributes ;;
     if (length keys =? 1)%nat && truthy (or_undefined (getProp attributes "id"))
     then
       setState (JObj [("errorMessage", JStr "No data has changed")]) ;;;
       ret (Fulfilled JUndefined)
     else
       url <- match getUrlParams integrationSpec with
              | Some get =>
                  existingParams <- (if isNew props then ret (JObj [])
                                     else call_deserialize (existingObject props)) ;;
                  params <- lift (get existingParams) ;;
                  lift (generatePath saveUrl params)
              | None => ret saveUrl
              end ;;
       send_attributes props url attributes net)
    (fun e => ret (Rejected e)).

Definition setData (update : JsVal) : M Component unit :=
  data <- gets (fun c => or_undefined (assoc "data" (state c))) ;;
  setState (JObj [("data", JObj (Object_assign (Object_assign [] data) update))]).

(** The [set] prop: [key => value => this.setData({[key]: value})]. *)
Definition set (key : string) (value : JsVal) : M Component unit :=
  setData (JObj [(key, value)]).

End Class.

End Composer.

(** ** default-server-handler.tsx *)

(** What the handler is given, from the state of the composer. *)
Record ServerComms := {
  serverMessage : JsVal;
  errorMessage : JsVal;
  redirectTo : JsVal
}.

(** A child of an element: the value left by [value && <element>] when the
    value is falsy, or the element. *)
Inductive Shown (A : Type) :=
| Value (v : JsVal)
| Element (a : A).
Arguments Value {A} v.

(** [<div><a href={href}>Continue</a></div>]. *)
Record ContinueLink := { href : string }.

(** One of the two boxes: the dismiss link, the message, and [{redirect}]. *)
Record MessageBox := {
  message : JsVal;
  redirect : Shown ContinueLink
}.

(** The children of the handler's outer [div]: the error box, then the
    message box. *)
Definition DefaultServerHandler (urlFor : JsVal -> Completion string) (props : ServerComms)
  : Completion (Shown MessageBox * Shown MessageBox) :=
  match (if truthy (redirectTo props)
         then match urlFor (redirectTo props) with
              | Return url => Return (Element {| href := url |})
              | Throw e => Throw e
              end
         else Return (Value (redirectTo props))) with
  | Throw e => Throw e
  | Return redirect =>
      let box (text : JsVal) : Shown MessageBox :=
        if truthy text then Element {| message := text; redirect := redirect |}
        else Value text in
      Return (box (errorMessage props), box (serverMessage props))
  end.

(** [render] of the composer, as far as the handler goes: the props it is
    given. *)
Definition handler_props (state : list (string * JsVal)) : ServerComms :=
  {| serverMessage := or_undefined (assoc "serverMessage" state);
     errorMessage := or_undefined (assoc "errorMessage" state);
     redirectTo := or_undefined (assoc "redirectTo" state) |}.

(** The query [urlFor] makes of a string: one parameter for each character,
    named by its index. *)
Definition spelled (s : string) : string :=
  String.concat "&"
    (map (fun p => encodeURIComponent (fst p) ++ "=" ++ encodeURIComponent (ToString (snd p)))
         (char_entries 0 s)).

(** ** Examples for the path cache, the composer and the handler *)

(** A [compile] whose generators return the path as it is. *)
Definition echo_compile : string -> Completion Generator :=
  fun path => Return (fun _ => Return path).

(** An integration that edits the [name] and the [notes] of a record. *)
Definition person_fields (v : JsVal) : JsVal :=
  JObj [("name", or_undefined (getProp v "name"));
        ("notes", or_undefined (getProp v "notes"))].

Definition person_spec : Composer.Integration :=
  {| Composer.defaultState := JObj [("name", JStr "unnamed"); ("notes", JStr "none")];
     Composer.canEdit := true;
     Composer.deserialize := Some (fun record => Return (person_fields record));
     Composer.serialize := fun data => Return (person_fields data);
     Composer.primaryKey := None;
     Composer.getUrlParams := None |}.

Definition create_only_spec : Composer.Integration :=
  {| Composer.defaultState := JObj [("name", JStr "unnamed"); ("notes", JStr "none")];
     Composer.canEdit := false;
     Composer.deserialize := None;
     Composer.serialize := fun data => Return (person_fields data);
     Composer.primaryKey := None;
     Composer.getUrlParams := None |}.

Definition no_record : Composer.Props :=
  {| Composer.defaultValue := JUndefined; Composer.existingObject := JUndefined;
     Composer.onSuccess := None; Composer.onError := None |}.

Definition suggested_person : Composer.Props :=
  {| Composer.defaultValue := JObj [("name", JStr "Ada"); ("notes", JNull)];
     Composer.existingObject := JUndefined;
     Composer.onSuccess := None; Composer.onError := None |}.

Definition person_7 : Composer.Props :=
  {| Composer.defaultValue := JUndefined;
     Composer.existingObject :=
       JObj [("id", JNum 7); ("name", JStr "Ada"); ("notes", JStr "first")];
     Composer.onSuccess := None; Composer.onError := None |}.

Definition blank_composer : Composer.Component :=
  {| Composer.state := []; Composer.calls := [] |}.

(** A composer whose form holds Ada's record. *)
Definition editing_ada : Composer.Component :=
  {| Composer.state := [("data", JObj [("name", JStr "Ada"); ("notes", JStr "first")])];
     Composer.calls := [] |}.

Definition body_created : string :=
  "{" ++ dq ++ "message" ++ dq ++ ":" ++ dq ++ "created" ++ dq ++ ","
  ++ dq ++ "id" ++ dq ++ ":8}".

(** A loader that shows a list, and one that recorded an error. *)
Definition showing_list : Component :=
  {| state := {| data := JArr [JStr "a"] []; errorStatus := JUndefined |}; events := [] |}.

Definition showing_error : Component :=
  {| state := {| data := JUndefined; errorStatus := JStr "bad id" |}; events := [] |}.

Definition props_id_2 : Props :=
  {| id := JNum 2; apiQuery := JUndefined; onError := None; onLoad := None;
     passthru := [] |}.


Definition props_throwing : Props :=
  {| id := JNum 1; apiQuery := JUndefined;
     onError := Some (fun e => Throw e);
     onLoad := Some (fun _ => Return JUndefined);
     passthru := [] |}.

(** * Properties *)


(** ** The monad *)

Lemma bind_returns {S A B} (c : M S A) (k : A -> M S B) (s s' : S) (a : A) :
  c s = (Return a, s') -> bind c k s = k a s'.
Proof. intros H. unfold bind. now rewrite H. Qed.
Arguments bind_returns {S A B c} k {s s' a} _.

(** ** deepCompare *)

Lemma depth_JObj ps : depth (JObj ps) = S (props_depth ps).
Proof.
  cbn. f_equal. unfold props_depth.
  induction ps as [|[k x] ps IH]; cbn; [reflexivity|]. now rewrite IH.
Qed.

Lemma depth_JBlob ps c t : depth (JBlob ps c t) = S (props_depth ps).
Proof.
  cbn. f_equal. unfold props_depth.
  induction ps as [|[k x] ps IH]; cbn; [reflexivity|]. now rewrite IH.
Qed.

Lemma depth_JFile ps n c t : depth (JFile ps n c t) = S (props_depth ps).
Proof.
  cbn. f_equal. unfold props_depth.
  induction ps as [|[k x] ps IH]; cbn; [reflexivity|]. now rewrite IH.
Qed.

Lemma depth_JError ps n m : depth (JError ps n m) = S (props_depth ps).
Proof.
  cbn. f_equal. unfold props_depth.
  induction ps as [|[k x] ps IH]; cbn; [reflexivity|]. now rewrite IH.
Qed.

Lemma depth_JArr es ps : depth (JArr es ps) = S (Nat.max (elems_depth es) (props_depth ps)).
Proof.
  cbn. f_equal. f_equal. unfold props_depth.
  induction ps as [|[k x] ps IH]; cbn; [reflexivity|]. now rewrite IH.
Qed.

Lemma assoc_depth k ps x : assoc k ps = Some x -> depth x <= props_depth ps.
Proof.
  unfold props_depth.
  induction ps as [|[k' v] ps IH]; cbn; [discriminate|].
  destruct (k =? k').
  - intros [= ->]. lia.
  - intros H. specialize (IH H). lia.
Qed.

Lemma assoc_app k ps1 ps2 :
  assoc k (ps1 ++ ps2)%list =
  match assoc k ps1 with Some x => Some x | None => assoc k ps2 end.
Proof.
  induction ps1 as [|[k' v] ps1 IH]; cbn; [reflexivity|].
  destruct (k =? k'); [reflexivity | exact IH].
Qed.

Lemma assoc_index_depth k es i x :
  assoc k (index_entries i es) = Some x -> depth x <= elems_depth es.
Proof.
  unfold elems_depth.
  revert i. induction es as [|e es IH]; intros i; cbn; [discriminate|].
  destruct (k =? string_of_nat i).
  - intros [= ->]. lia.
  - intros H. specialize (IH _ H). lia.
Qed.

(** A property of a non-null object lies strictly less deep than the
    object. *)
Lemma depth_getProp v k :
  is_plain_object v = true -> depth (or_undefined (getProp v k)) < depth v.
Proof.
  intros H; destruct v; try discriminate H; clear H; cbn [getProp or_undefined].
  - rewrite depth_JObj. destruct (assoc k props) eqn:E; cbn; [|lia].
    apply assoc_depth in E. lia.
  - rewrite depth_JArr, assoc_app.
    destruct (assoc k (index_entries 0 elems)) eqn:E1.
    + apply assoc_index_depth in E1. lia.
    + destruct (assoc k props) eqn:E2.
      * apply assoc_depth in E2. lia.
      * destruct (k =? "length"); cbn; lia.
  - rewrite depth_JBlob. destruct (assoc k props) eqn:E.
    + apply assoc_depth in E. lia.
    + destruct (k =? "size"); [cbn; lia|]. destruct (k =? "type"); cbn; lia.
  - rewrite depth_JFile. destruct (assoc k props) eqn:E.
    + apply assoc_depth in E. lia.
    + destruct (k =? "name"); [cbn; lia|].
      destruct (k =? "size"); [cbn; lia|]. destruct (k =? "type"); cbn; lia.
  - rewrite depth_JError. destruct (assoc k props) eqn:E.
    + apply assoc_depth in E. lia.
    + destruct (k =? "name"); [cbn; lia|]. destruct (k =? "message"); cbn; lia.
Qed.

(** The branch of [deepCompare] that walks the keys is taken on two non-null
    objects only. *)
Lemma deepCompare_walks_objects i1 i2 :
  negb (both i1 i2 is_object) || either i1 i2 is_null = false ->
  is_plain_object i1 = true /\ is_plain_object i2 = true.
Proof.
  unfold both, either, is_plain_object. cbn.
  destruct (is_object i1), (is_object i2), (is_null i1), (is_null i2); cbn;
    intros H; try discriminate; auto.
Qed.

(** [deepCompare_fuel] answers as soon as the fuel exceeds the depth of its
    first argument: [deepCompare] never runs out. *)
Lemma deepCompare_fuel_total fuel :
  forall i1 i2, depth i1 < fuel -> exists b, deepCompare_fuel fuel i1 i2 = Some b.
Proof.
  induction fuel as [|fuel IH]; intros i1 i2 Hd; [lia|].
  cbn [deepCompare_fuel].
  destruct (both i1 i2 is_number && both i1 i2 isNaN); [eauto|].
  destruct (negb (both i1 i2 is_object) || either i1 i2 is_null) eqn:Hobj; [eauto|].
  apply deepCompare_walks_objects in Hobj as [Ho1 _].
  destruct (negb (length (getObjKeys i1) =? length (getObjKeys i2))%nat); [eauto|].
  generalize (getObjKeys i1) as keys.
  induction keys as [|prop keys IHk]; [eauto|].
  pose proof (depth_getProp i1 prop Ho1) as Hlt.
  destruct (is_object (or_undefined (getProp i1 prop))
            && negb (is_null (or_undefined (getProp i1 prop)))).
  - destruct (IH (or_undefined (getProp i1 prop)) (or_undefined (getProp i2 prop)))
      as [b Hb]; [lia|].
    rewrite Hb. destruct b; [exact IHk | eauto].
  - destruct (negb (strict_eq _ _)); [eauto | exact IHk].
Qed.

Lemma deepCompare_total i1 i2 :
  deepCompare_fuel (S (depth i1)) i1 i2 = Some (deepCompare i1 i2).
Proof.
  unfold deepCompare.
  destruct (@deepCompare_fuel_total _ i1 i2 (Nat.lt_succ_diag_r (depth i1))) as [b Hb].
  now rewrite Hb.
Qed.

(** C7. A number that is not a number equals itself at the top, as the
    comment in the source intends, but not one level down: the loop over the
    keys compares what is not an object with [!==]. *)
Theorem deepCompare_nested_NaN :
  deepCompare JNaN JNaN = true
  /\ deepCompare (JObj [("id", JNaN)]) (JObj [("id", JNaN)]) = false
  /\ deepCompare (JArr [JNaN] []) (JArr [JNaN] []) = false.
Proof. repeat split; reflexivity. Qed.

Lemma assoc_in_keys k ps x : assoc k ps = Some x -> In k (map fst ps).
Proof.
  induction ps as [|[k' v] ps IH]; cbn; [discriminate|].
  destruct (k =? k') eqn:E.
  - apply String.eqb_eq in E. auto.
  - auto.
Qed.

(** An object with a property that is not a number is equal to nothing, not
    even to itself: the loop over its keys returns [false] at that property
    at the latest. *)
Lemma deepCompare_NaN_property ps k i2 :
  assoc k ps = Some JNaN -> deepCompare (JObj ps) i2 = false.
Proof.
  intros Hk. unfold deepCompare.
  generalize (depth (JObj ps)) as fuel. intros fuel.
  cbn [deepCompare_fuel].
  replace (both (JObj ps) i2 is_number && both (JObj ps) i2 isNaN) with false
    by reflexivity.
  destruct (negb (both (JObj ps) i2 is_object) || either (JObj ps) i2 is_null);
    [reflexivity|].
  destruct (negb (length (getObjKeys (JObj ps)) =? length (getObjKeys i2))%nat);
    [reflexivity|].
  assert (Hin : In k (getObjKeys (JObj ps))) by (cbn; now apply assoc_in_keys with JNaN).
  revert Hin. generalize (getObjKeys (JObj ps)) as keys.
  induction keys as [|prop keys IH]; [intros []|]. intros Hin.
  destruct (String.eqb_spec prop k) as [->|Hne].
  - cbn [getProp or_undefined]. rewrite Hk. reflexivity.
  - destruct Hin as [Heq|Hin]; [congruence|]. specialize (IH Hin).
    destruct (is_object (or_undefined (getProp (JObj ps) prop))
              && negb (is_null (or_undefined (getProp (JObj ps) prop)))).
    + destruct (deepCompare_fuel fuel _ _) as [[|]|]; [exact IH | reflexivity | reflexivity].
    + destruct (negb (strict_eq _ _)); [reflexivity | exact IH].
Qed.

(** [deepCompare] counts the keys of its second argument and reads only those
    of the first: two objects with different keys compare equal when the
    values read are the same. *)
Lemma deepCompare_counts_keys :
  deepCompare (JObj [("a", JUndefined)]) (JObj [("b", JNum 1)]) = true
  /\ deepCompare (JArr [] []) (JObj []) = true.
Proof. split; reflexivity. Qed.

(** Two files compare by name, size and type: the bytes are not read. *)
Lemma deepCompare_files name content1 content2 type :
  String.length content1 = String.length content2 ->
  deepCompare (JFile [] name content1 type) (JFile [] name content2 type) = true.
Proof.
  intros Hlen. unfold deepCompare. cbn. unfold len. rewrite Hlen.
  now rewrite !String.eqb_refl, Z.eqb_refl.
Qed.

(** ** The query string of a GET request *)

Lemma not_nullish v :
  negb (strict_eq v JUndefined) && negb (strict_eq v JNull) = negb (is_nullish v).
Proof. destruct v; reflexivity. Qed.

(** The loop of [serializeUri] pushes, for the keys it keeps, the pairs of
    [query_pairs], in order. *)
Lemma serializeUri_loop obj keys params :
  fold_left (serializeUri_step obj) keys params =
  app params
    (map (fun k => k ++ "=" ++ encodeURIComponent (ToString (or_undefined (getProp obj k))))
       (filter (fun k => negb (is_nullish (or_undefined (getProp obj k)))) keys)).
Proof.
  revert params. induction keys as [|k keys IH]; intros params; cbn.
  - now rewrite app_nil_r.
  - rewrite IH. unfold serializeUri_step. rewrite not_nullish.
    destruct (negb (is_nullish (or_undefined (getProp obj k)))); cbn.
    + now rewrite <- app_assoc.
    + reflexivity.
Qed.

Lemma serializeUri_pairs obj : serializeUri obj = String.concat "&" (query_pairs obj).
Proof. unfold serializeUri, query_pairs. now rewrite serializeUri_loop. Qed.

Lemma plain_object_truthy v : is_plain_object v = true -> truthy v = true.
Proof. destruct v; cbn; congruence. Qed.

(** ** No trailing [&] *)

Lemma last_char_some y s : exists c, last_char (String y s) = Some c.
Proof.
  revert y. induction s as [|z s IH]; intros y; [now exists y|].
  destruct (IH z) as (c & Hc). exists c. exact Hc.
Qed.

Lemma last_char_cons x s :
  last_char (String x s) = match last_char s with Some c => Some c | None => Some x end.
Proof.
  destruct s as [|y s]; [reflexivity|].
  destruct (last_char_some y s) as (c & Hc).
  change (last_char (String x (String y s))) with (last_char (String y s)).
  now rewrite Hc.
Qed.

Lemma last_char_app a b :
  last_char (a ++ b) = match last_char b with Some c => Some c | None => last_char a end.
Proof.
  induction a as [|x a IH]; cbn [append].
  - now destruct (last_char b).
  - rewrite !last_char_cons, IH. now destruct (last_char b), (last_char a).
Qed.

Lemma hex_digit_not_amp m : m < 16 -> hex_digit m <> "&"%char.
Proof.
  intros Hm. do 16 (destruct m as [|m]; [discriminate|]). lia.
Qed.

Lemma unreserved_not_amp c : uri_unreserved c = true -> c <> "&"%char.
Proof. intros H ->. discriminate H. Qed.

Lemma percent_encode_last c :
  exists h, last_char (percent_encode c) = Some h /\ h <> "&"%char.
Proof.
  unfold percent_encode. eexists. split; [reflexivity|].
  apply hex_digit_not_amp, Nat.mod_upper_bound. discriminate.
Qed.

(** An encoded value does not end with [&]. *)
Lemma encode_last s :
  forall c, last_char (encodeURIComponent s) = Some c -> c <> "&"%char.
Proof.
  induction s as [|x s IH]; intros c; cbn [encodeURIComponent]; [discriminate|].
  rewrite last_char_app.
  destruct (last_char (encodeURIComponent s)) as [d|].
  - intros [= <-]. now apply IH.
  - destruct (uri_unreserved x) eqn:E.
    + cbn [last_char]. intros [= <-]. now apply unreserved_not_amp.
    + destruct (percent_encode_last x) as (h & Hh & Hne). rewrite Hh.
      intros [= <-]. exact Hne.
Qed.

(** Neither does a [key=value] pair, which is not empty. *)
Lemma pair_last k s :
  exists c, last_char (k ++ "=" ++ encodeURIComponent s) = Some c /\ c <> "&"%char.
Proof.
  rewrite !last_char_app.
  destruct (last_char (encodeURIComponent s)) as [d|] eqn:E.
  - exists d. split; [reflexivity|]. now apply (encode_last s).
  - exists "="%char. split; [reflexivity | discriminate].
Qed.

Lemma concat_last (l : list string) :
  l <> [] ->
  Forall (fun x => exists c, last_char x = Some c /\ c <> "&"%char) l ->
  exists c, last_char (String.concat "&" l) = Some c /\ c <> "&"%char.
Proof.
  induction l as [|x l IH]; [congruence|]. intros _ Hall.
  inversion Hall as [|? ? Hx Hl]; subst.
  destruct l as [|y l]; [exact Hx|].
  destruct (IH ltac:(discriminate) Hl) as (c & Hc & Hne).
  exists c. split; [|exact Hne].
  change (String.concat "&" (x :: y :: l)) with (x ++ "&" ++ String.concat "&" (y :: l)).
  now rewrite !last_char_app, Hc.
Qed.

(** The query string never ends with [&], whatever the object. *)
Lemma serializeUri_no_trailing_amp obj : last_char (serializeUri obj) <> Some "&"%char.
Proof.
  rewrite serializeUri_pairs.
  destruct (query_pairs obj) as [|x l] eqn:E; [discriminate|].
  destruct (@concat_last (x :: l)) as (c & Hc & Hne); [discriminate| |].
  - rewrite <- E. unfold query_pairs. apply Forall_forall. intros p Hin.
    apply in_map_iff in Hin as (k & <- & _). apply pair_last.
  - rewrite Hc. congruence.
Qed.

Section Request.

Variable JSON_parse : string -> option JsVal.
Variable St : Type.
Variables success fail : JsVal -> M St unit.

Lemma send_url method url data contentType :
  xhr_url (send JSON_parse method url data success fail contentType) = url.
Proof. unfold send. now destruct (negb (contentType =? "")). Qed.


Lemma send_sent method url data contentType :
  sent (send JSON_parse method url data success fail contentType) =
  Some (if truthy data
        then match JSON_stringify data with Some t => JStr t | None => JUndefined end
        else data).
Proof. unfold send. now destruct (negb (contentType =? "")). Qed.

(** C4. A GET call with a data object appends [?] and the query string to the
    URL: the [key=value] pairs of the keys whose value is neither [null] nor
    [undefined], values URL-encoded, joined by [&]; the URL does not end with
    [&]. *)
Theorem get_url_query url data :
  is_plain_object data = true ->
  xhr_url (get_fn JSON_parse url data success fail)
  = url ++ "?" ++ String.concat "&" (query_pairs data)
  /\ last_char (xhr_url (get_fn JSON_parse url data success fail)) <> Some "&"%char.
Proof.
  intros Hobj. unfold get_fn. rewrite send_url, (plain_object_truthy _ Hobj).
  split; [now rewrite serializeUri_pairs|].
  rewrite !last_char_app.
  pose proof (serializeUri_no_trailing_amp data) as Hlast.
  destruct (last_char (serializeUri data)); [congruence | discriminate].
Qed.



(** What [get] hands to [xhr.send] is the JSON text of an empty object, which
    the request does not carry. *)
Lemma get_argument url data :
  sent (get_fn JSON_parse url data success fail) = Some (JStr "{}").
Proof. unfold get_fn. now rewrite send_sent. Qed.

End Request.

(** The query object of the specification: [{a: 1, b: null, c: undefined}]
    gives the suffix [?a=1]. *)
Lemma get_url_query_example :
  xhr_url (get_fn json_parse "/rest-resource"
             (JObj [("a", JNum 1); ("b", JNull); ("c", JUndefined)])
             resolve reject)
  = "/rest-resource?a=1".
Proof.
  rewrite (proj1 (get_url_query json_parse resolve reject "/rest-resource"
                    (JObj [("a", JNum 1); ("b", JNull); ("c", JUndefined)]) eq_refl)).
  reflexivity.
Defined.

(** The call of the README: the parameter is in the URL, and the request has
    no body. *)
Lemma get_example_request :
  let xhr := get_fn json_parse "/rest-resource/101"
               (JObj [("parameter", JStr "value")]) resolve reject in
  xhr_url xhr = "/rest-resource/101?parameter=value"
  /\ request_body xhr = Some JNull
  /\ request_body (post_fn json_parse "/rest-resource"
                     (JObj [("parameter", JStr "value")]) resolve reject)
     = Some (JStr ("{" ++ dq ++ "parameter" ++ dq ++ ":" ++ dq ++ "value" ++ dq ++ "}")).
Proof. repeat split; reflexivity. Qed.

(** ** How a request settles its promise *)

Section Settlement.

Variable JSON_parse : string -> option JsVal.

(** With an answer, the [readystatechange] handler of [send] does nothing and
    the [load] handler classifies the status. *)
Lemma complete_send {St} (success fail : JsVal -> M St unit) method url data contentType r :
  status r <> 0%Z ->
  complete (send JSON_parse method url data success fail contentType) (Answered r)
  = dispatch
      (if ((status r >=? 200) && (status r <? 300))%Z
       then doSuccess JSON_parse success (responseText r)
              (if given (Location r) then Location r else None)
       else doError JSON_parse fail (responseText r)).
Proof.
  intros Hz. apply Z.eqb_neq in Hz.
  unfold complete, send. rewrite Hz.
  destruct (negb (contentType =? "")); cbn; rewrite Hz;
    destruct ((status r >=? 200) && (status r <? 300))%Z; try reflexivity;
    destruct (given (Location r)); reflexivity.
Qed.

Lemma complete_send_unanswered {St} (success fail : JsVal -> M St unit)
    method url data contentType r :
  status r = 0%Z ->
  complete (send JSON_parse method url data success fail contentType) (Answered r)
  = dispatch (fail (JStr "Could not reach the server")).
Proof.
  intros Hz. apply Z.eqb_eq in Hz. unfold complete, send. rewrite Hz.
  destruct (negb (contentType =? "")); cbn; now rewrite Hz.
Qed.

Lemma doSuccess_resolve response redirectTo :
  doSuccess JSON_parse resolve response redirectTo Pending
  = (Return tt,
     Fulfilled (success_value JSON_parse
                  {| status := 200; responseText := response; Location := redirectTo |})).
Proof.
  unfold doSuccess, success_value, parse, try_catch, bind, lift. cbn.
  destruct (JSON_parse response) as [parsed|]; cbn; [|reflexivity].
  destruct (given redirectTo); cbn; [|reflexivity].
  destruct (assign parsed "redirectTo" _); reflexivity.
Qed.

Lemma doError_reject response :
  doError JSON_parse reject response Pending
  = (Return tt,
     Rejected (failure_value JSON_parse
                 {| status := 400; responseText := response; Location := None |})).
Proof.
  unfold doError, failure_value, raw_or_fallback, parse, read, try_catch, bind. cbn.
  destruct (JSON_parse response) as [parsed|]; cbn.
  - destruct (getProp parsed "error") as [error|]; cbn.
    + reflexivity.
    + now destruct (response =? "").
  - now destruct (response =? "").
Qed.

Lemma given_given (o : option string) :
  given (if given o then o else None) = given o.
Proof. now destruct (given o) eqn:E. Qed.

Lemma success_value_eq r :
  success_value JSON_parse
    {| status := 200; responseText := responseText r;
       Location := if given (Location r) then Location r else None |}
  = success_value JSON_parse r.
Proof.
  unfold success_value. cbn. rewrite given_given.
  destruct (JSON_parse (responseText r)); [|reflexivity].
  now destruct (given (Location r)).
Qed.

(** A 2xx answer fulfils the promise of the request. *)
Lemma settlement_success method url data contentType r :
  (200 <= status r < 300)%Z ->
  settlement (send JSON_parse method url data resolve reject contentType) (Answered r)
  = Fulfilled (success_value JSON_parse r).
Proof.
  intros H. unfold settlement. rewrite complete_send by lia.
  replace ((status r >=? 200) && (status r <? 300))%Z with true
    by (symmetry; rewrite Z.geb_leb; apply andb_true_iff; split;
        [apply Z.leb_le | apply Z.ltb_lt]; lia).
  unfold dispatch, try_catch. rewrite doSuccess_resolve. cbn.
  now rewrite success_value_eq.
Qed.

(** Any other answer rejects it. *)
Lemma settlement_failure method url data contentType r :
  status r <> 0%Z -> ~ (200 <= status r < 300)%Z ->
  settlement (send JSON_parse method url data resolve reject contentType) (Answered r)
  = Rejected (failure_value JSON_parse r).
Proof.
  intros Hz H. unfold settlement. rewrite complete_send by exact Hz.
  replace ((status r >=? 200) && (status r <? 300))%Z with false.
  - unfold dispatch, try_catch. now rewrite doError_reject.
  - symmetry. rewrite Z.geb_leb. apply andb_false_iff.
    destruct (Z.lt_ge_cases (status r) 200); [left | right].
    + apply Z.leb_gt. lia.
    + apply Z.ltb_ge. lia.
Qed.

(** A request that completes without an answer rejects it. *)
Lemma settlement_unreachable method url data contentType r :
  status r = 0%Z ->
  settlement (send JSON_parse method url data resolve reject contentType) (Answered r)
  = Rejected (JStr "Could not reach the server").
Proof.
  intros Hz. unfold settlement. now rewrite complete_send_unanswered.
Qed.

(** Every function of the API ends in [send], with the method it is named
    after and the JSON content type. *)
Lemma api_fn_send {St} method url data (success fail : JsVal -> M St unit) :
  exists url' data',
    api_fn JSON_parse method url data success fail
    = send JSON_parse method url' data' success fail Mime_json_utf8.
Proof. destruct method; cbn; do 2 eexists; reflexivity. Qed.

Lemma api_settlement_success method url data r :
  (200 <= status r < 300)%Z ->
  settlement (api_fn JSON_parse method url data resolve reject) (Answered r)
  = Fulfilled (success_value JSON_parse r).
Proof.
  intros H. destruct (api_fn_send method url data resolve reject) as (u & d & ->).
  now apply settlement_success.
Qed.

Lemma api_settlement_failure method url data r :
  status r <> 0%Z -> ~ (200 <= status r < 300)%Z ->
  settlement (api_fn JSON_parse method url data resolve reject) (Answered r)
  = Rejected (failure_value JSON_parse r).
Proof.
  intros Hz H. destruct (api_fn_send method url data resolve reject) as (u & d & ->).
  now apply settlement_failure.
Qed.

End Settlement.

(** ** Assigning [redirectTo] *)

Lemma assoc_set_own_same k x ps : assoc k (set_own k x ps) = Some x.
Proof.
  induction ps as [|[k' v] ps IH]; cbn.
  - now rewrite String.eqb_refl.
  - destruct (k =? k') eqn:E; cbn; rewrite ?String.eqb_refl, ?E; auto.
Qed.

Lemma assoc_set_own_other k k' x ps :
  k <> k' -> assoc k (set_own k' x ps) = assoc k ps.
Proof.
  intros Hne. apply String.eqb_neq in Hne.
  induction ps as [|[k0 v] ps IH]; cbn.
  - now rewrite Hne.
  - destruct (k' =? k0) eqn:E; cbn.
    + apply String.eqb_eq in E. subst k0. now rewrite Hne.
    + now rewrite IH.
Qed.

(** A decimal numeral begins with a digit, so it is not [redirectTo]. *)
Lemma index_not_redirectTo i : ("redirectTo" =? string_of_nat i) = false.
Proof.
  unfold string_of_nat. now destruct (Nat.to_uint i).
Qed.

Lemma assoc_redirectTo_index i es : assoc "redirectTo" (index_entries i es) = None.
Proof.
  revert i. induction es as [|e es IH]; intros i; cbn [index_entries assoc]; [reflexivity|].
  now rewrite index_not_redirectTo.
Qed.

(** On a non-null object the assignment goes through: [redirectTo] reads
    back, and every other property reads as before. *)
Lemma assign_redirectTo v x :
  is_plain_object v = true ->
  exists v',
    assign v "redirectTo" x = Return v'
    /\ getProp v' "redirectTo" = Some x
    /\ (forall k, k <> "redirectTo" -> getProp v' k = getProp v k)
    /\ Array_isArray v' = Array_isArray v
    /\ array_length v' = array_length v.
Proof.
  intros H; destruct v; try discriminate H; clear H; cbn [assign];
    eexists; (split; [reflexivity|]); cbn [getProp Array_isArray array_length];
    repeat split; intros;
    rewrite ?assoc_app, ?assoc_redirectTo_index, ?assoc_set_own_same,
      ?assoc_set_own_other by assumption; reflexivity.
Qed.

(** On [null] and on a primitive it throws. *)
Lemma assign_primitive v k x :
  is_plain_object v = false -> exists e, assign v k x = Throw e.
Proof. destruct v; cbn; try discriminate; eauto. Qed.

(** An own property of a non-null object is what reading [error] gives. *)
Lemma getProp_error v :
  is_plain_object v = true ->
  getProp v "error" = Some (or_undefined (assoc "error" (own_entries v))).
Proof.
  intros H; destruct v; try discriminate H; cbn [getProp own_entries]; f_equal;
    destruct (assoc "error" _); reflexivity.
Qed.

(** ** The promise [wrap] returns *)

Section Wrapped.

Variable W : Type.
Variable urlFor : JsVal -> Completion string.

Lemma wrap_no_options (fn : ApiFn Outcome) url data net (w : W) :
  wrap urlFor fn url data (no_options W) net w
  = (Return (makeCancellablePromise
               (new_promise (settlement (fn url data resolve reject) net))
               (OnCancel (Some (fn url data resolve reject)))),
     w).
Proof. reflexivity. Qed.

Variable JSON_parse : string -> option JsVal.

(** C2, as the code has it. A request that completes with a status that is
    neither 0 nor in [200, 300) rejects the promise. When the body parses to
    an object: with its [error] when that is a string that is not empty, with
    "(no message provided)" when it is the empty string, with the object
    itself when it has no [error] or a falsy one that is not a string
    ([null], [0], [false]), and with the [error] as it is when it is truthy
    and not a string. When the body does not parse: with the raw body, and
    with "Server returned with an unexpected response" when the body is
    empty. The promise a call without [routeWith] returns is that promise. *)
Theorem failure_rejects method url data r (w : W) :
  status r <> 0%Z -> ~ (200 <= status r < 300)%Z ->
  exists F,
    JsonApi JSON_parse urlFor method url data (no_options W) (Answered r) w = (Return F, w)
    /\ outcome F
       = settlement (api_fn JSON_parse method url data resolve reject) (Answered r)
    /\ match JSON_parse (responseText r) with
       | Some parsed =>
           is_plain_object parsed = true ->
           match assoc "error" (own_entries parsed) with
           | Some (JStr s) =>
               outcome F = Rejected (JStr (if s =? "" then "(no message provided)" else s))
           | Some error =>
               outcome F = Rejected (if truthy error then error else parsed)
           | None => outcome F = Rejected parsed
           end
       | None =>
           outcome F
           = Rejected (JStr (if responseText r =? ""
                             then "Server returned with an unexpected response"
                             else responseText r))
       end.
Proof.
  intros Hz H. unfold JsonApi. rewrite wrap_no_options.
  eexists; split; [reflexivity|]. split; [reflexivity|]. cbn [outcome makeCancellablePromise new_promise].
  rewrite api_settlement_failure by assumption. unfold failure_value.
  destruct (JSON_parse (responseText r)) as [parsed|]; [|reflexivity].
  intros Hobj. rewrite (getProp_error _ Hobj).
  destruct (assoc "error" (own_entries parsed)) as [[| |b|n| |s|ps|es ps|ps c t|ps n c t|ps n m]|];
    cbn; try reflexivity.
  destruct (s =? "") eqn:E; cbn; [reflexivity|]. now rewrite E.
Qed.

(** C3, as the code has it. A request that completes with a status in
    [200, 300) fulfils the promise, never rejects it: with the raw body when
    it does not parse; with the parsed body when no Location header came (or
    an empty one); with the parsed body carrying [redirectTo] when a Location
    header came and the body is a non-null object; and with the raw body,
    not the parsed one, when a Location header came and the body parsed to
    [null] or to a primitive. *)
Theorem success_fulfils method url data r (w : W) :
  (200 <= status r < 300)%Z ->
  exists F,
    JsonApi JSON_parse urlFor method url data (no_options W) (Answered r) w = (Return F, w)
    /\ outcome F
       = settlement (api_fn JSON_parse method url data resolve reject) (Answered r)
    /\ match JSON_parse (responseText r) with
       | None => outcome F = Fulfilled (JStr (responseText r))
       | Some parsed =>
           match Location r with
           | None => outcome F = Fulfilled parsed
           | Some l =>
               if l =? "" then outcome F = Fulfilled parsed
               else if is_plain_object parsed then
                 exists v,
                   outcome F = Fulfilled v
                   /\ getProp v "redirectTo" = Some (JStr l)
                   /\ (forall k, k <> "redirectTo" -> getProp v k = getProp parsed k)
                   /\ Array_isArray v = Array_isArray parsed
                   /\ array_length v = array_length parsed
               else outcome F = Fulfilled (JStr (responseText r))
           end
       end.
Proof.
  intros H. unfold JsonApi. rewrite wrap_no_options.
  eexists; split; [reflexivity|]. split; [reflexivity|]. cbn [outcome makeCancellablePromise new_promise].
  rewrite api_settlement_success by assumption. unfold success_value.
  destruct (JSON_parse (responseText r)) as [parsed|]; [|reflexivity].
  destruct (Location r) as [l|]; cbn [given]; [|reflexivity].
  destruct (l =? ""); cbn [negb]; [reflexivity|].
  destruct (is_plain_object parsed) eqn:Hobj.
  - destruct (@assign_redirectTo parsed (JStr l) Hobj) as (v & -> & Hv). eauto.
  - destruct (@assign_primitive parsed "redirectTo" (JStr l) Hobj) as (e & ->). reflexivity.
Qed.

End Wrapped.

(** The four failures the specification lists: status 404 with the bodies
    [{"error":"bad id"}], [{"error":""}], [oops] and the empty body. *)
Lemma failure_rejects_spec_examples :
  (exists F,
     JsonApi json_parse page_urlFor GET "/rest-resource/101" JUndefined
       (no_options Page) (answer 404 body_bad_id None) blank_page
     = (Return F, blank_page)
     /\ outcome F = Rejected (JStr "bad id"))
  /\ (exists F,
        JsonApi json_parse page_urlFor GET "/rest-resource/101" JUndefined
          (no_options Page) (answer 404 body_empty_error None) blank_page
        = (Return F, blank_page)
        /\ outcome F = Rejected (JStr "(no message provided)"))
  /\ (exists F,
        JsonApi json_parse page_urlFor GET "/rest-resource/101" JUndefined
          (no_options Page) (answer 404 "oops" None) blank_page
        = (Return F, blank_page)
        /\ outcome F = Rejected (JStr "oops"))
  /\ (exists F,
        JsonApi json_parse page_urlFor GET "/rest-resource/101" JUndefined
          (no_options Page) (answer 404 "" None) blank_page
        = (Return F, blank_page)
        /\ outcome F = Rejected (JStr "Server returned with an unexpected response")).
Proof.
  assert (Hz : forall body,
             status {| status := 404; responseText := body; Location := None |} <> 0%Z)
    by (intros body; cbn; lia).
  assert (Hfail : forall body,
             ~ (200 <= status {| status := 404; responseText := body; Location := None |}
                < 300)%Z)
    by (intros body; cbn; lia).
  repeat split.
  - destruct (@failure_rejects Page page_urlFor json_parse GET "/rest-resource/101" JUndefined
                {| status := 404; responseText := body_bad_id; Location := None |} blank_page
                (Hz _) (Hfail _)) as (F & HF & _ & Hcase).
    exists F. split; [exact HF | exact (Hcase eq_refl)].
  - destruct (@failure_rejects Page page_urlFor json_parse GET "/rest-resource/101" JUndefined
                {| status := 404; responseText := body_empty_error; Location := None |}
                blank_page (Hz _) (Hfail _)) as (F & HF & _ & Hcase).
    exists F. split; [exact HF | exact (Hcase eq_refl)].
  - destruct (@failure_rejects Page page_urlFor json_parse GET "/rest-resource/101" JUndefined
                {| status := 404; responseText := "oops"; Location := None |} blank_page
                (Hz _) (Hfail _)) as (F & HF & _ & Hcase).
    exists F. split; [exact HF | exact Hcase].
  - destruct (@failure_rejects Page page_urlFor json_parse GET "/rest-resource/101" JUndefined
                {| status := 404; responseText := ""; Location := None |} blank_page
                (Hz _) (Hfail _)) as (F & HF & _ & Hcase).
    exists F. split; [exact HF | exact Hcase].
Defined.

(** C2 as stated fails: the body [{"error":null}] parses to an object with an
    [error] field, and the rejection is the object, not the field. So it is
    for [{"error":0}] and [{"error":false}]; [{"error":5}] rejects with the
    number. *)
Lemma failure_rejects_null_error :
  json_parse body_null_error = Some (JObj [("error", JNull)])
  /\ (exists F,
        JsonApi json_parse page_urlFor GET "/rest-resource/101" JUndefined
          (no_options Page) (answer 404 body_null_error None) blank_page
        = (Return F, blank_page)
        /\ outcome F = Rejected (JObj [("error", JNull)]))
  /\ settlement (api_fn json_parse GET "/rest-resource/101" JUndefined resolve reject)
       (answer 404 ("{" ++ dq ++ "error" ++ dq ++ ":0}") None)
     = Rejected (JObj [("error", JNum 0)])
  /\ settlement (api_fn json_parse GET "/rest-resource/101" JUndefined resolve reject)
       (answer 404 ("{" ++ dq ++ "error" ++ dq ++ ":false}") None)
     = Rejected (JObj [("error", JBool false)])
  /\ settlement (api_fn json_parse GET "/rest-resource/101" JUndefined resolve reject)
       (answer 404 ("{" ++ dq ++ "error" ++ dq ++ ":5}") None)
     = Rejected (JNum 5).
Proof.
  split; [reflexivity|]. split; [eexists; split; reflexivity|].
  repeat split; reflexivity.
Qed.

(** C3 as stated fails: the body [null] with a Location header does not
    resolve with the parsed body, [null], but with the text [null]. *)
Lemma null_body_with_location :
  json_parse "null" = Some JNull
  /\ exists F,
       JsonApi json_parse page_urlFor POST "/rest-resource" (JObj [("name", JStr "x")])
         (no_options Page) (answer 201 "null" (Some "/rest-resource/102")) blank_page
       = (Return F, blank_page)
       /\ outcome F = Fulfilled (JStr "null")
       /\ outcome F <> Fulfilled JNull.
Proof.
  split; [reflexivity|]. eexists. split; [reflexivity|]. split; [reflexivity|].
  cbn. discriminate.
Qed.

(** A created record: the answer [{"id":102}] with a Location header
    resolves with the object and its [redirectTo]. *)
Lemma success_fulfils_redirect :
  exists F,
    JsonApi json_parse page_urlFor POST "/rest-resource" (JObj [("name", JStr "x")])
      (no_options Page)
      (answer 201 ("{" ++ dq ++ "id" ++ dq ++ ":102}") (Some "/rest-resource/102"))
      blank_page
    = (Return F, blank_page)
    /\ exists v,
         outcome F = Fulfilled v
         /\ getProp v "redirectTo" = Some (JStr "/rest-resource/102")
         /\ getProp v "id" = Some (JNum 102).
Proof.
  destruct (@success_fulfils Page page_urlFor json_parse POST "/rest-resource"
              (JObj [("name", JStr "x")])
              {| status := 201; responseText := "{" ++ dq ++ "id" ++ dq ++ ":102}";
                 Location := Some "/rest-resource/102" |} blank_page)
    as (F & HF & _ & v & Hv & Hr & Hk & _).
  - cbn. lia.
  - exists F. split; [exact HF|]. exists v. split; [exact Hv|]. split; [exact Hr|].
    rewrite Hk by discriminate. reflexivity.
Defined.

(** ** Chains of [then] and [catch] *)

Section Chains.

Variable W : Type.
Variable abort : XHR Outcome -> M W unit.
Variable urlFor : JsVal -> Completion string.

(** A reaction job always ends: an exception of the handler is the rejection
    of the derived promise. *)
Lemma react_returns o (f g : option (Handler W)) w :
  exists o' w', react o f g w = (Return o', w').
Proof.
  destruct o as [|v|e]; cbn.
  - do 2 eexists; reflexivity.
  - destruct f as [h|]; [|do 2 eexists; reflexivity].
    unfold try_catch, bind. destruct (h v w) as [[r|x] w']; do 2 eexists; reflexivity.
  - destruct g as [h|]; [|do 2 eexists; reflexivity].
    unfold try_catch, bind. destruct (h e w) as [[r|x] w']; do 2 eexists; reflexivity.
Qed.

Lemma call_then_returns impl this (f g : option (Handler W)) w :
  exists q w', call_then impl this f g w = (Return q, w').
Proof.
  induction impl as [|t IH c]; cbn.
  - unfold Promise_prototype_then.
    destruct (react_returns (outcome this) f g w) as (o & w' & Ho).
    rewrite (bind_returns _ Ho). do 2 eexists; reflexivity.
  - destruct IH as (p & w' & Hp). rewrite (bind_returns _ Hp). do 2 eexists; reflexivity.
Qed.

Lemma call_catch_returns impl this (g : option (Handler W)) w :
  exists q w', call_catch impl this g w = (Return q, w').
Proof.
  induction impl as [|k IH c]; cbn.
  - apply call_then_returns.
  - destruct IH as (p & w' & Hp). rewrite (bind_returns _ Hp). do 2 eexists; reflexivity.
Qed.

Lemma makeCancellablePromise_cancellable p c :
  cancellable_with c (makeCancellablePromise p c).
Proof. unfold cancellable_with. cbn. eauto. Qed.

(** What a patched [then] or [catch] returns is patched with the same
    closure, whatever the promise it is called on. *)
Lemma patched_then_cancellable t c this (f g : option (Handler W)) w :
  exists q w', call_then (Patch t c) this f g w = (Return q, w') /\ cancellable_with c q.
Proof.
  cbn. destruct (call_then_returns t this f g w) as (p & w' & Hp).
  rewrite (bind_returns _ Hp).
  do 2 eexists; split; [reflexivity | apply makeCancellablePromise_cancellable].
Qed.

Lemma patched_catch_cancellable k c this (g : option (Handler W)) w :
  exists q w', call_catch (Patch k c) this g w = (Return q, w') /\ cancellable_with c q.
Proof.
  cbn. destruct (call_catch_returns k this g w) as (p & w' & Hp).
  rewrite (bind_returns _ Hp).
  do 2 eexists; split; [reflexivity | apply makeCancellablePromise_cancellable].
Qed.

Lemma link_cancellable c p (l : ChainLink W) w :
  cancellable_with c p ->
  exists q w', link_call p l w = (Return q, w') /\ cancellable_with c q.
Proof.
  intros (_ & (t & Ht) & (k & Hk)).
  destruct l as [f g|g]; cbn; unfold then_, catch_; rewrite ?Ht, ?Hk.
  - apply patched_then_cancellable.
  - apply patched_catch_cancellable.
Qed.

(** Cancellability goes through a chain of any length. *)
Lemma chain_cancellable c (links : list (ChainLink W)) :
  forall p w, cancellable_with c p ->
  exists q w', chain p links w = (Return q, w') /\ cancellable_with c q.
Proof.
  induction links as [|l links IH]; intros p w Hp; cbn.
  - exists p, w. split; [reflexivity | exact Hp].
  - destruct (link_cancellable l w Hp) as (q & w' & Hq & Hc).
    rewrite (bind_returns _ Hq). now apply IH.
Qed.

Lemma wrap_returns (fn : ApiFn Outcome) url data options net (w : W) :
  exists p w',
    wrap urlFor fn url data options net w
    = (Return (makeCancellablePromise p (OnCancel (Some (fn url data resolve reject)))), w').
Proof.
  unfold wrap. destruct (routeWith options) as [history|]; [|do 2 eexists; reflexivity].
  unfold Promise_prototype_then.
  destruct (react_returns (outcome (new_promise (settlement (fn url data resolve reject) net)))
              (Some (route_success urlFor history)) (Some (route_failure history)) w)
    as (o & w' & Ho).
  rewrite (bind_returns _ (bind_returns _ Ho)). do 2 eexists; reflexivity.
Qed.

(** C1. The promise [F] a call returns aborts the request of that call when
    cancelled, and so does the promise at the end of any chain of [then] and
    [catch] calls on [F]: its [cancel] is the one of [F]. In particular
    [F.then(fn)] cancelled aborts the request [F] cancelled would. *)
Theorem cancel_forwards (fn : ApiFn Outcome) url data options net (w : W) :
  exists F w1,
    wrap urlFor fn url data options net w = (Return F, w1)
    /\ cancel_ abort F = abort (fn url data resolve reject)
    /\ (forall (links : list (ChainLink W)) w2,
          exists Fn w3,
            chain F links w2 = (Return Fn, w3)
            /\ cancel Fn = cancel F
            /\ cancel_ abort Fn = abort (fn url data resolve reject))
    /\ (forall (handler : Handler W) w2,
          exists F2 w3,
            then_ F (Some handler) None w2 = (Return F2, w3)
            /\ cancel_ abort F2 = cancel_ abort F).
Proof.
  destruct (wrap_returns fn url data options net w) as (p & w1 & Hw).
  pose proof (makeCancellablePromise_cancellable p
                (OnCancel (Some (fn url data resolve reject)))) as HF.
  eexists; exists w1. split; [exact Hw|]. split; [reflexivity|]. split.
  - intros links w2.
    destruct (chain_cancellable links w2 HF) as (Fn & w3 & Hchain & Hc & _).
    exists Fn, w3. split; [exact Hchain|]. split; [exact Hc|].
    unfold cancel_. now rewrite Hc.
  - intros handler w2.
    destruct (link_cancellable (ThenLink (Some handler) None) w2 HF)
      as (F2 & w3 & Hthen & Hc & _).
    exists F2, w3. split; [exact Hthen|].
    unfold cancel_. now rewrite Hc.
Qed.

(** C9, as the code has it. With [routeWith], the reaction to a failure
    replaces the navigation state and returns nothing: the promise handed to
    the caller is fulfilled with [undefined]. A [catch] handler of the caller
    is not called, and a [then] handler is called with [undefined]. *)
Theorem routed_failure_is_consumed (fn : ApiFn Outcome) url data history net (w : W) e :
  settlement (fn url data resolve reject) net = Rejected e ->
  exists F,
    wrap urlFor fn url data {| routeWith := Some history |} net w
    = (Return F,
       replace history
         (JObj (spread_with (location history w) "state" (JObj [("errorMessage", e)]))) w)
    /\ outcome F = Fulfilled JUndefined
    /\ (forall (g : Handler W) w',
          exists F', catch_ F (Some g) w' = (Return F', w')
                     /\ outcome F' = Fulfilled JUndefined)
    /\ (forall (f : Handler W) w',
          exists F', then_ F (Some f) None w' = (Return F', snd (f JUndefined w'))).
Proof.
  intros He. unfold wrap. cbn [routeWith].
  unfold Promise_prototype_then. cbn [outcome new_promise]. rewrite He.
  eexists. split; [reflexivity|]. split; [reflexivity|]. split.
  - intros g w'. eexists. split; reflexivity.
  - intros f w'. unfold then_. cbn.
    unfold Promise_prototype_then, react, bind, try_catch, ret. cbn.
    destruct (f JUndefined w') as [[r|x] w'']; cbn; eexists; reflexivity.
Qed.

(** The reaction to a success returns nothing either: what the caller is
    handed is fulfilled with [undefined], or rejected with what the reaction
    threw (a response that is [null], an [urlFor] that throws). *)
Lemma routed_success_is_consumed (fn : ApiFn Outcome) url data history net (w : W) v :
  settlement (fn url data resolve reject) net = Fulfilled v ->
  exists F w1,
    wrap urlFor fn url data {| routeWith := Some history |} net w = (Return F, w1)
    /\ (outcome F = Fulfilled JUndefined \/ exists x, outcome F = Rejected x).
Proof.
  intros Hv. unfold wrap. cbn [routeWith].
  unfold Promise_prototype_then. cbn [outcome new_promise]. rewrite Hv.
  cbv [react route_success read bind try_catch ret throw modify lift].
  destruct (getProp v "message") as [message|]; [|do 2 eexists; split; [reflexivity|]; cbn; eauto].
  destruct (0 <? _)%nat; [destruct (urlFor _)|];
    do 2 eexists; (split; [reflexivity|]); cbn; eauto.
Qed.

End Chains.

(** C9 as stated fails: a 404 with [routeWith] reaches the navigation state,
    and the caller's [catch] handler is never given it. Without [routeWith]
    the same handler is. *)
Lemma routed_failure_not_caught :
  exists F w1 F' w2,
    JsonApi json_parse page_urlFor GET "/rest-resource/101" JUndefined
      {| routeWith := Some page_history |} (answer 404 body_bad_id None) blank_page
    = (Return F, w1)
    /\ catch_ F (Some keep_error) w1 = (Return F', w2)
    /\ outcome F = Fulfilled JUndefined
    /\ caught w2 = []
    /\ entries w2 = [JObj [("pathname", JStr "/");
                           ("state", JObj [("errorMessage", JStr "bad id")])]].
Proof. do 4 eexists. repeat split; reflexivity. Qed.

Lemma unrouted_failure_caught :
  exists F w1 F' w2,
    JsonApi json_parse page_urlFor GET "/rest-resource/101" JUndefined
      (no_options Page) (answer 404 body_bad_id None) blank_page
    = (Return F, w1)
    /\ catch_ F (Some keep_error) w1 = (Return F', w2)
    /\ outcome F = Rejected (JStr "bad id")
    /\ caught w2 = [JStr "bad id"].
Proof. do 4 eexists. repeat split; reflexivity. Qed.

(** The same 404, through the theorem. *)
Lemma routed_failure_bad_id :
  exists F,
    wrap page_urlFor (api_fn json_parse GET) "/rest-resource/101" JUndefined
      {| routeWith := Some page_history |} (answer 404 body_bad_id None) blank_page
    = (Return F,
       {| entries := [JObj [("pathname", JStr "/");
                            ("state", JObj [("errorMessage", JStr "bad id")])]];
          aborted := []; caught := [] |})
    /\ outcome F = Fulfilled JUndefined.
Proof.
  destruct (@routed_failure_is_consumed Page page_urlFor (api_fn json_parse GET)
              "/rest-resource/101" JUndefined page_history
              (answer 404 body_bad_id None) blank_page (JStr "bad id") eq_refl)
    as (F & HF & Ho & _).
  exists F. split; [exact HF | exact Ho].
Defined.

(** ** The loader component *)

Section LoaderProperties.

Variable JSON_parse : string -> option JsVal.
Variable urlFor : JsVal -> Completion string.
Variable generatePath : string -> JsVal -> string.
Variable apiUrl : string.
Variable options : LoaderOptions.


Lemma assoc_spread_into k target source :
  assoc k source = None -> assoc k (spread_into target source) = assoc k target.
Proof.
  unfold spread_into. revert target.
  induction source as [|[k' v] source IH]; intros target; cbn; [reflexivity|].
  destruct (k =? k') eqn:E; [discriminate|]. intros Hnone.
  rewrite IH by exact Hnone. apply assoc_set_own_other. now apply String.eqb_neq.
Qed.

(** What [load] does when the request succeeds: one [setState] with the
    adapted response, then [onLoad]. *)
Lemma load_success this_props props net response (c : Component) :
  request_settlement JSON_parse generatePath apiUrl options props net = Fulfilled response ->
  exists c',
    load JSON_parse urlFor generatePath apiUrl options this_props props net c
    = (Return tt, c')
    /\ state c' = merge (data_update (the_serverAdapter options response)) (state c)
    /\ events c'
       = (events c
          ++ [SetState (data_update (the_serverAdapter options response))]
          ++ (match onLoad this_props with
              | Some _ => [Called OnLoad JUndefined]
              | None => []
              end))%list.
Proof.
  intros Hok.
  unfold load, JsonApi_get, JsonApi. rewrite (bind_returns _ (wrap_no_options _ _ _ _ _ _)).
  cbn [api_fn]. unfold request_settlement in Hok. rewrite Hok.
  cbv [then_ call_then own_then makeCancellablePromise new_promise outcome
         Promise_prototype_then react call_hook setState modify lift bind try_catch ret].
  destruct (onLoad this_props) as [h|]; cbn; [destruct (h JUndefined); cbn|];
    eexists; (split; [reflexivity|]); cbn; split; try reflexivity;
    now rewrite <- ?app_assoc.
Qed.

(** C10. When the adapted response is falsy, the data is stored and never
    displayed: the component renders the error it had recorded, or else the
    loading placeholder. *)
Theorem falsy_data_never_displays this_props props net response (c : Component) :
  request_settlement JSON_parse generatePath apiUrl options props net = Fulfilled response ->
  truthy (the_serverAdapter options response) = false ->
  exists c',
    load JSON_parse urlFor generatePath apiUrl options this_props props net c
    = (Return tt, c')
    /\ data (state c') = the_serverAdapter options response
    /\ errorStatus (state c') = errorStatus (state c)
    /\ forall any_props,
         render options any_props (state c')
         = if truthy (errorStatus (state c))
           then ErrorPlaceholder (errorStatus (state c))
           else LoadingPlaceholder.
Proof.
  intros Hok Hfalsy.
  destruct (@load_success this_props props net response c Hok) as (c' & Hload & Hstate & _).
  exists c'. split; [exact Hload|]. rewrite Hstate. cbn. repeat split.
  intros any_props. unfold render. cbn. now rewrite Hfalsy.
Qed.

(** C5, as the code has it. When the adapted response is an array without
    elements, the component renders the error placeholder with "No results"
    unless [renderOnEmptyResult] is set; when it is set, it renders the display
    component, whose [data] is the empty array provided neither the query nor
    a prop passed through is itself called [data]. *)
Theorem empty_array_result this_props props net response ps (c : Component) :
  request_settlement JSON_parse generatePath apiUrl options props net = Fulfilled response ->
  the_serverAdapter options response = JArr [] ps ->
  exists c',
    load JSON_parse urlFor generatePath apiUrl options this_props props net c
    = (Return tt, c')
    /\ data (state c') = JArr [] ps
    /\ (renderOnEmptyResult options = false ->
        render options this_props (state c') = ErrorPlaceholder (JStr "No results"))
    /\ (renderOnEmptyResult options = true ->
        exists dprops,
          render options this_props (state c') = DisplayElement dprops this_props
          /\ (assoc "data" (own_entries (the_getApiQuery options this_props)) = None ->
              assoc "data" (passthru this_props) = None ->
              assoc "data" dprops = Some (JArr [] ps))).
Proof.
  intros Hok Hempty.
  destruct (@load_success this_props props net response c Hok) as (c' & Hload & Hstate & _).
  exists c'. split; [exact Hload|]. rewrite Hstate, Hempty. cbn.
  split; [reflexivity|]. unfold render. cbn. split; intros ->; cbn; [reflexivity|].
  eexists. split; [reflexivity|]. intros Hq Hp.
  rewrite !assoc_spread_into by assumption. reflexivity.
Qed.

End LoaderProperties.

(** The values the specification lists, and [undefined], are falsy. *)
Lemma falsy_values :
  forallb (fun v => negb (truthy v))
    [JNull; JNum 0; JStr ""; JBool false; JNaN; JUndefined] = true.
Proof. reflexivity. Qed.



(** The answer [null] leaves the component on its loading placeholder. *)
Lemma null_data_keeps_loading :
  exists c',
    load json_parse page_urlFor same_path "/rest-resource" plain_options
      props_id_1 props_id_1 (answer 200 "null" None) no_component
    = (Return tt, c')
    /\ data (state c') = JNull
    /\ render plain_options props_id_1 (state c') = LoadingPlaceholder.
Proof.
  destruct (@falsy_data_never_displays json_parse page_urlFor same_path "/rest-resource"
              plain_options props_id_1 props_id_1 (answer 200 "null" None) JNull
              no_component eq_refl eq_refl)
    as (c' & Hload & Hdata & _ & Hrender).
  exists c'. split; [exact Hload|]. split; [exact Hdata | exact (Hrender props_id_1)].
Defined.

(** The answer [[]]: "No results" by default. *)
Lemma empty_array_no_results :
  exists c',
    load json_parse page_urlFor same_path "/rest-resource" plain_options
      props_id_1 props_id_1 (answer 200 "[]" None) no_component
    = (Return tt, c')
    /\ render plain_options props_id_1 (state c') = ErrorPlaceholder (JStr "No results").
Proof.
  destruct (@empty_array_result json_parse page_urlFor same_path "/rest-resource"
              plain_options props_id_1 props_id_1 (answer 200 "[]" None) (JArr [] []) []
              no_component eq_refl eq_refl)
    as (c' & Hload & _ & Hplain & _).
  exists c'. split; [exact Hload | exact (Hplain eq_refl)].
Defined.

(** With [renderOnEmptyResult], the display component and the empty array. *)
Lemma empty_array_displayed :
  exists c',
    load json_parse page_urlFor same_path "/rest-resource" lenient_options
      props_id_1 props_id_1 (answer 200 "[]" None) no_component
    = (Return tt, c')
    /\ render lenient_options props_id_1 (state c')
       = DisplayElement [("data", JArr [] []); ("id", JNum 1)] props_id_1.
Proof. eexists. split; reflexivity. Qed.

(** C5 as stated fails: with a query parameter called [data], the display
    component is given that parameter as [data], not the empty array. *)
Lemma empty_array_data_shadowed :
  exists c' dprops,
    load json_parse page_urlFor same_path "/rest-resource" lenient_options
      props_data_query props_data_query (answer 200 "[]" None) no_component
    = (Return tt, c')
    /\ data (state c') = JArr [] []
    /\ render lenient_options props_data_query (state c')
       = DisplayElement dprops props_data_query
    /\ assoc "data" dprops = Some (JStr "raw")
    /\ assoc "data" dprops <> Some (JArr [] []).
Proof. do 2 eexists. repeat split; try reflexivity. cbn. discriminate. Qed.

(** What the defect of [deepCompare] costs the loader: with [id] not a
    number, props that did not change count as a new query, and the component
    drops its data and loads again; with [id={1}] it does nothing. *)
Lemma NaN_id_reloads :
  snd (componentWillReceiveProps json_parse page_urlFor same_path "/rest-resource"
         plain_options props_id_NaN props_id_NaN Silent no_component)
  = {| state := {| data := JNull; errorStatus := JUndefined |};
       events := [SetState (data_update JNull)] |}
  /\ snd (componentWillReceiveProps json_parse page_urlFor same_path "/rest-resource"
            plain_options props_id_1 props_id_1 Silent no_component)
     = no_component.
Proof. split; reflexivity. Qed.

(** ** deepCompare on one value *)

Lemma NaN_free_JObj ps : NaN_free (JObj ps) = props_NaN_free ps.
Proof.
  cbn. unfold props_NaN_free.
  induction ps as [|[k x] ps IH]; cbn; [reflexivity|]. now rewrite IH.
Qed.

Lemma NaN_free_JBlob ps c t : NaN_free (JBlob ps c t) = props_NaN_free ps.
Proof.
  cbn. unfold props_NaN_free.
  induction ps as [|[k x] ps IH]; cbn; [reflexivity|]. now rewrite IH.
Qed.

Lemma NaN_free_JFile ps n c t : NaN_free (JFile ps n c t) = props_NaN_free ps.
Proof.
  cbn. unfold props_NaN_free.
  induction ps as [|[k x] ps IH]; cbn; [reflexivity|]. now rewrite IH.
Qed.

Lemma NaN_free_JError ps n m : NaN_free (JError ps n m) = props_NaN_free ps.
Proof.
  cbn. unfold props_NaN_free.
  induction ps as [|[k x] ps IH]; cbn; [reflexivity|]. now rewrite IH.
Qed.

Lemma NaN_free_JArr es ps :
  NaN_free (JArr es ps) = forallb NaN_free es && props_NaN_free ps.
Proof.
  cbn. unfold props_NaN_free. f_equal.
  induction ps as [|[k x] ps IH]; cbn; [reflexivity|]. now rewrite IH.
Qed.

Lemma assoc_NaN_free k ps x :
  props_NaN_free ps = true -> assoc k ps = Some x -> NaN_free x = true.
Proof.
  unfold props_NaN_free.
  induction ps as [|[k' v] ps IH]; cbn; [discriminate|].
  intros H. apply andb_true_iff in H as [Hv Hps].
  destruct (k =? k'); [intros [= <-]; exact Hv | now apply IH].
Qed.

Lemma assoc_index_NaN_free k es i x :
  forallb NaN_free es = true -> assoc k (index_entries i es) = Some x -> NaN_free x = true.
Proof.
  revert i. induction es as [|e es IH]; intros i; cbn; [discriminate|].
  intros H. apply andb_true_iff in H as [He Hes].
  destruct (k =? string_of_nat i); [intros [= <-]; exact He | now apply IH].
Qed.

(** What is read from a value without [NaN] is without [NaN]. *)
Lemma getProp_NaN_free v k :
  NaN_free v = true -> NaN_free (or_undefined (getProp v k)) = true.
Proof.
  destruct v; try reflexivity; cbn [getProp or_undefined].
  - destruct (assoc k (char_entries 0 s)) eqn:E.
    + clear - E. revert E. generalize 0. induction s as [|c s IH]; intros i; cbn; [discriminate|].
      destruct (k =? string_of_nat i); [now intros [= <-] | apply IH].
    + now destruct (k =? "length").
  - rewrite NaN_free_JObj. intros H. destruct (assoc k props) eqn:E; [|reflexivity].
    now apply (assoc_NaN_free k props).
  - rewrite NaN_free_JArr, assoc_app. intros H. apply andb_true_iff in H as [He Hp].
    destruct (assoc k (index_entries 0 elems)) eqn:E1.
    + now apply (assoc_index_NaN_free k elems 0).
    + destruct (assoc k props) eqn:E2; [now apply (assoc_NaN_free k props)|].
      now destruct (k =? "length").
  - rewrite NaN_free_JBlob. intros H. destruct (assoc k props) eqn:E.
    + now apply (assoc_NaN_free k props).
    + destruct (k =? "size"); [reflexivity|]. now destruct (k =? "type").
  - rewrite NaN_free_JFile. intros H. destruct (assoc k props) eqn:E.
    + now apply (assoc_NaN_free k props).
    + destruct (k =? "name"); [reflexivity|].
      destruct (k =? "size"); [reflexivity|]. now destruct (k =? "type").
  - rewrite NaN_free_JError. intros H. destruct (assoc k props) eqn:E.
    + now apply (assoc_NaN_free k props).
    + destruct (k =? "name"); [reflexivity|]. now destruct (k =? "message").
Qed.

(** [===] is reflexive on what is neither an object nor [NaN]. *)
Lemma strict_eq_refl v :
  is_plain_object v = false -> NaN_free v = true -> strict_eq v v = true.
Proof.
  destruct v; cbn; try discriminate; intros _ _; try reflexivity.
  - apply Bool.eqb_reflx.
  - apply Z.eqb_refl.
  - apply String.eqb_refl.
Qed.

Lemma deepCompare_fuel_refl fuel :
  forall v, depth v < fuel -> NaN_free v = true -> deepCompare_fuel fuel v v = Some true.
Proof.
  induction fuel as [|fuel IH]; intros v Hd Hfree; [lia|].
  cbn [deepCompare_fuel].
  replace (both v v is_number && both v v isNaN) with false
    by (destruct v; try reflexivity; discriminate Hfree).
  destruct (negb (both v v is_object) || either v v is_null) eqn:Hobj.
  - f_equal. apply strict_eq_refl; [|exact Hfree].
    unfold both, either, is_plain_object in *. cbn in Hobj.
    destruct (is_object v), (is_null v); cbn in *; congruence.
  - apply deepCompare_walks_objects in Hobj as [Ho _].
    rewrite Nat.eqb_refl. cbn [negb].
    generalize (getObjKeys v) as keys.
    induction keys as [|prop keys IHk]; [reflexivity|].
    pose proof (depth_getProp v prop Ho) as Hlt.
    pose proof (getProp_NaN_free v prop Hfree) as Hp.
    destruct (is_object (or_undefined (getProp v prop))
              && negb (is_null (or_undefined (getProp v prop)))) eqn:Hv.
    + rewrite IH by (try lia; exact Hp). exact IHk.
    + rewrite strict_eq_refl by assumption. exact IHk.
Qed.

(** A value without [NaN] at any depth equals itself. *)
Theorem deepCompare_refl v : NaN_free v = true -> deepCompare v v = true.
Proof.
  intros Hfree. unfold deepCompare.
  now rewrite deepCompare_fuel_refl by (try lia; exact Hfree).
Qed.

(** ** filterNulls *)

Lemma keys_set_own k x ps :
  map fst (set_own k x ps)
  = if existsb (String.eqb k) (map fst ps) then map fst ps else (map fst ps ++ [k])%list.
Proof.
  induction ps as [|[k' v] ps IH]; cbn; [reflexivity|].
  destruct (k =? k') eqn:E; cbn.
  - apply String.eqb_eq in E. now subst.
  - rewrite IH. now destruct (existsb (String.eqb k) (map fst ps)).
Qed.

Lemma existsb_eqb_In k (l : list string) : existsb (String.eqb k) l = true <-> In k l.
Proof.
  rewrite existsb_exists. split.
  - intros (x & Hin & E). apply String.eqb_eq in E. now subst.
  - intros Hin. exists k. split; [exact Hin | apply String.eqb_refl].
Qed.

Lemma NoDup_set_own k x ps : NoDup (map fst ps) -> NoDup (map fst (set_own k x ps)).
Proof.
  intros Hnd. rewrite keys_set_own.
  destruct (existsb (String.eqb k) (map fst ps)) eqn:E; [exact Hnd|].
  apply NoDup_app; [exact Hnd | repeat constructor; intros [] | ].
  intros y Hin [<-|[]]. apply existsb_eqb_In in Hin. congruence.
Qed.

(** What the loop of [filterNulls] leaves under a key. *)
Lemma filterNulls_loop obj k keys acc :
  assoc k (fold_left (filterNulls_step obj) keys acc)
  = if existsb (String.eqb k) keys && negb (strict_eq (or_undefined (getProp obj k)) JNull)
    then Some (or_undefined (getProp obj k))
    else assoc k acc.
Proof.
  revert acc. induction keys as [|key keys IH]; intros acc; cbn [fold_left existsb].
  - reflexivity.
  - rewrite IH. unfold filterNulls_step.
    destruct (String.eqb_spec k key) as [<-|Hne]; cbn [orb].
    + destruct (negb (strict_eq (or_undefined (getProp obj k)) JNull));
        rewrite ?andb_true_r, ?andb_false_r; [|reflexivity].
      rewrite assoc_set_own_same. now destruct (existsb (String.eqb k) keys).
    + destruct (negb (strict_eq (or_undefined (getProp obj key)) JNull));
        rewrite ?assoc_set_own_other by exact Hne; reflexivity.
Qed.

(** [filterNulls] keeps the own properties that are not [null], [undefined]
    ones included, with their values, and nothing is [null] in its result. *)
Theorem filterNulls_lookup obj k :
  getProp (filterNulls obj) k
  = Some (if existsb (String.eqb k) (Object_keys obj)
             && negb (is_null (or_undefined (getProp obj k)))
          then or_undefined (getProp obj k)
          else JUndefined)
  /\ getProp (filterNulls obj) k <> Some JNull.
Proof.
  unfold filterNulls. cbn [getProp]. rewrite filterNulls_loop. cbn [assoc].
  replace (strict_eq (or_undefined (getProp obj k)) JNull)
    with (is_null (or_undefined (getProp obj k)))
    by (now destruct (or_undefined (getProp obj k))).
  destruct (existsb (String.eqb k) (Object_keys obj)); cbn [andb or_undefined];
    [|split; [reflexivity | discriminate]].
  destruct (or_undefined (getProp obj k)); cbn; split; (reflexivity || discriminate).
Qed.

Lemma filterNulls_loop_NoDup obj keys acc :
  NoDup (map fst acc) -> NoDup (map fst (fold_left (filterNulls_step obj) keys acc)).
Proof.
  revert acc. induction keys as [|key keys IH]; intros acc Hnd; cbn; [exact Hnd|].
  apply IH. unfold filterNulls_step.
  destruct (negb _); [now apply NoDup_set_own | exact Hnd].
Qed.

Lemma filterNulls_loop_no_null obj keys acc :
  forallb (fun p => negb (is_null (snd p))) acc = true ->
  forallb (fun p => negb (is_null (snd p))) (fold_left (filterNulls_step obj) keys acc) = true.
Proof.
  revert acc. induction keys as [|key keys IH]; intros acc Hacc; cbn; [exact Hacc|].
  apply IH. unfold filterNulls_step.
  destruct (negb (strict_eq (or_undefined (getProp obj key)) JNull)) eqn:E; [|exact Hacc].
  assert (Hv : negb (is_null (or_undefined (getProp obj key))) = true)
    by (destruct (or_undefined (getProp obj key)); cbn in *; congruence).
  clear E. revert Hv. generalize (or_undefined (getProp obj key)) as v. intros v Hv.
  induction acc as [|[k' x] acc IHa]; cbn in *.
  - now rewrite Hv.
  - apply andb_true_iff in Hacc as [Hx Hrest].
    destruct (key =? k'); cbn; [now rewrite Hv | rewrite Hx; now apply IHa].
Qed.

Lemma set_own_fresh k x ps :
  existsb (String.eqb k) (map fst ps) = false -> set_own k x ps = (ps ++ [(k, x)])%list.
Proof.
  induction ps as [|[k' v] ps IH]; cbn; [reflexivity|].
  destruct (k =? k'); cbn; [discriminate|]. intros H. now rewrite IH.
Qed.

Lemma assoc_fresh k ps : existsb (String.eqb k) (map fst ps) = false -> assoc k ps = None.
Proof.
  induction ps as [|[k' v] ps IH]; cbn; [reflexivity|].
  destruct (k =? k'); cbn; [discriminate | exact IH].
Qed.

(** On an object without a [null] whose keys are distinct, the loop rebuilds
    the object. *)
Lemma filterNulls_rebuild pre suf :
  NoDup (map fst (pre ++ suf)) ->
  forallb (fun p => negb (is_null (snd p))) suf = true ->
  fold_left (filterNulls_step (JObj (pre ++ suf))) (map fst suf) pre = (pre ++ suf)%list.
Proof.
  revert pre. induction suf as [|[k v] suf IH]; intros pre Hnd Hnn; cbn [map fst fold_left].
  - now rewrite app_nil_r.
  - cbn in Hnn. apply andb_true_iff in Hnn as [Hv Hsuf].
    assert (Hfresh : existsb (String.eqb k) (map fst pre) = false).
    { destruct (existsb (String.eqb k) (map fst pre)) eqn:E; [|reflexivity].
      apply existsb_eqb_In in E. rewrite map_app in Hnd. cbn in Hnd.
      apply NoDup_remove_2 in Hnd. exfalso. apply Hnd. apply in_or_app. now left. }
    assert (Hread : or_undefined (getProp (JObj (pre ++ (k, v) :: suf)) k) = v).
    { cbn [getProp or_undefined]. rewrite assoc_app, (assoc_fresh k pre Hfresh). cbn.
      now rewrite String.eqb_refl. }
    unfold filterNulls_step at 2. rewrite Hread.
    replace (strict_eq v JNull) with (is_null v) by (now destruct v).
    rewrite Hv, (set_own_fresh k v pre Hfresh).
    replace (pre ++ (k, v) :: suf)%list with ((pre ++ [(k, v)]) ++ suf)%list
      by (now rewrite <- app_assoc).
    apply IH; [now rewrite <- app_assoc | exact Hsuf].
Qed.

(** Filtering twice is filtering once. *)
Theorem filterNulls_idempotent obj : filterNulls (filterNulls obj) = filterNulls obj.
Proof.
  unfold filterNulls at 1 3. f_equal.
  set (l := fold_left (filterNulls_step obj) (Object_keys obj) []).
  change (filterNulls obj) with (JObj l). cbn [Object_keys own_entries].
  apply (filterNulls_rebuild []); cbn [app].
  - apply filterNulls_loop_NoDup. constructor.
  - now apply filterNulls_loop_no_null.
Qed.

(** ** objectDiff *)

Lemma getProp_defined v k : is_nullish v = false -> exists x, getProp v k = Some x.
Proof. destruct v; cbn; try discriminate; eauto. Qed.

Lemma objectDiff_left_returns lhs rhs keys acc :
  is_nullish rhs = false ->
  objectDiff_left lhs rhs keys acc
  = Return (fold_left (objectDiff_left_step lhs rhs) keys acc).
Proof.
  intros Hr. revert acc. induction keys as [|key keys IH]; intros acc; cbn; [reflexivity|].
  destruct (getProp_defined rhs key Hr) as (r & Er).
  unfold objectDiff_left_step at 2. rewrite Er. cbn [or_undefined]. apply IH.
Qed.

Lemma objectDiff_left_loop lhs rhs k keys acc :
  assoc k (fold_left (objectDiff_left_step lhs rhs) keys acc)
  = if existsb (String.eqb k) keys
       && differs (or_undefined (getProp lhs k)) (or_undefined (getProp rhs k))
    then Some (or_undefined (getProp rhs k))
    else assoc k acc.
Proof.
  revert acc. induction keys as [|key keys IH]; intros acc; cbn [fold_left existsb].
  - reflexivity.
  - rewrite IH. unfold objectDiff_left_step.
    destruct (String.eqb_spec k key) as [<-|Hne]; cbn [orb].
    + destruct (differs _ _); rewrite ?andb_true_r, ?andb_false_r; [|reflexivity].
      rewrite assoc_set_own_same. now destruct (existsb (String.eqb k) keys).
    + destruct (differs (or_undefined (getProp lhs key)) _);
        rewrite ?assoc_set_own_other by exact Hne; reflexivity.
Qed.

Lemma objectDiff_right_loop lhs rhs k keys acc :
  assoc k (fold_left (objectDiff_right lhs rhs) keys acc)
  = if existsb (String.eqb k) keys
       && (truthy rhs && hasOwnProperty rhs k && negb (truthy lhs && hasOwnProperty lhs k))
    then Some (or_undefined (getProp rhs k))
    else assoc k acc.
Proof.
  revert acc. induction keys as [|key keys IH]; intros acc; cbn [fold_left existsb].
  - reflexivity.
  - rewrite IH. unfold objectDiff_right.
    destruct (String.eqb_spec k key) as [<-|Hne]; cbn [orb].
    + destruct (truthy rhs && hasOwnProperty rhs k && negb (truthy lhs && hasOwnProperty lhs k));
        rewrite ?andb_true_r, ?andb_false_r; [|reflexivity].
      rewrite assoc_set_own_same. now destruct (existsb (String.eqb k) keys).
    + destruct (truthy rhs && hasOwnProperty rhs key
                && negb (truthy lhs && hasOwnProperty lhs key));
        rewrite ?assoc_set_own_other by exact Hne; reflexivity.
Qed.

Lemma objectDiff_loops_NoDup lhs rhs keys1 keys2 :
  NoDup (map fst (fold_left (objectDiff_right lhs rhs) keys2
                    (fold_left (objectDiff_left_step lhs rhs) keys1 []))).
Proof.
  assert (H1 : forall keys acc, NoDup (map fst acc) ->
                 NoDup (map fst (fold_left (objectDiff_left_step lhs rhs) keys acc))).
  { induction keys as [|key keys IH]; intros acc Hnd; cbn; [exact Hnd|].
    apply IH. unfold objectDiff_left_step.
    destruct (differs _ _); [now apply NoDup_set_own | exact Hnd]. }
  assert (H2 : forall keys acc, NoDup (map fst acc) ->
                 NoDup (map fst (fold_left (objectDiff_right lhs rhs) keys acc))).
  { induction keys as [|key keys IH]; intros acc Hnd; cbn; [exact Hnd|].
    apply IH. unfold objectDiff_right.
    destruct (truthy rhs && _ && _); [now apply NoDup_set_own | exact Hnd]. }
  apply H2, H1. constructor.
Qed.

(** Against anything but [null] and [undefined], [objectDiff] returns an
    object that holds, under the keys it reports, the values of the right
    side, and nothing else. *)
Lemma objectDiff_returns lhs rhs :
  is_nullish rhs = false ->
  exists d,
    objectDiff lhs rhs = Return (JObj d)
    /\ NoDup (map fst d)
    /\ forall k,
         assoc k d = if reported lhs rhs k then Some (or_undefined (getProp rhs k)) else None.
Proof.
  intros Hr. unfold objectDiff. rewrite objectDiff_left_returns by exact Hr.
  eexists. split; [reflexivity|]. split; [apply objectDiff_loops_NoDup|].
  intros k. rewrite objectDiff_right_loop, objectDiff_left_loop. unfold reported. cbn [assoc].
  destruct (existsb (String.eqb k) (Object_keys rhs) && _);
    [now rewrite orb_true_r | now rewrite orb_false_r].
Qed.

(** Against [null] or [undefined] it throws as soon as the left side has a
    key, and returns the empty object when it has none. *)
Theorem objectDiff_against_nothing lhs rhs :
  is_nullish rhs = true ->
  match Object_keys lhs with
  | [] => objectDiff lhs rhs = Return (JObj [])
  | _ :: _ => exists e, objectDiff lhs rhs = Throw e
  end.
Proof.
  intros Hr. unfold objectDiff.
  assert (Hnone : forall k, getProp rhs k = None) by (destruct rhs; try discriminate; reflexivity).
  assert (Hkeys : Object_keys rhs = []) by (destruct rhs; try discriminate; reflexivity).
  destruct (Object_keys lhs) as [|key keys]; cbn.
  - now rewrite Hkeys.
  - rewrite Hnone. eauto.
Qed.



Lemma assoc_spread_NoDup k target source :
  NoDup (map fst source) ->
  assoc k (spread_into target source)
  = match assoc k source with Some x => Some x | None => assoc k target end.
Proof.
  unfold spread_into. revert target.
  induction source as [|[k' v] source IH]; intros target Hnd; cbn; [reflexivity|].
  inversion Hnd as [|? ? Hnotin Hnd']; subst.
  destruct (String.eqb_spec k k') as [<-|Hne].
  - fold (spread_into (set_own k v target) source).
    rewrite assoc_spread_into; [apply assoc_set_own_same|].
    apply assoc_fresh. destruct (existsb (String.eqb k) (map fst source)) eqn:E; [|reflexivity].
    apply existsb_eqb_In in E. contradiction.
  - rewrite IH by exact Hnd'. now rewrite assoc_set_own_other by exact Hne.
Qed.

Lemma differs_false l r :
  differs l r = false ->
  deepCompare l r = true \/ (is_nullish l && is_nullish r = true).
Proof.
  unfold differs. destruct (deepCompare l r); [now left|]. right.
  destruct l, r; cbn in *; congruence.
Qed.

(** Patching the left object with the difference gives the right one back:
    under every key, [Object.assign({}, lhs, objectDiff(lhs, rhs))] holds the
    value of [rhs], or keeps a value of [lhs] that [deepCompare] equates with
    it or that is [null] against [undefined]. *)
Theorem objectDiff_patch ps qs d :
  NoDup (map fst ps) ->
  objectDiff (JObj ps) (JObj qs) = Return (JObj d) ->
  forall k,
    let l := or_undefined (assoc k ps) in
    let r := or_undefined (assoc k qs) in
    let patched := or_undefined (assoc k (Object_assign (Object_assign [] (JObj ps)) (JObj d))) in
    patched = r
    \/ (patched = l /\ (deepCompare l r = true \/ is_nullish l && is_nullish r = true)).
Proof.
  intros Hnd Hdiff k.
  destruct (@objectDiff_returns (JObj ps) (JObj qs) eq_refl) as (d' & Hd' & Hndd & Hlook).
  rewrite Hd' in Hdiff. injection Hdiff as <-.
  cbv zeta. unfold Object_assign. cbn [own_entries].
  rewrite (@assoc_spread_NoDup k _ _ Hndd), (@assoc_spread_NoDup k _ _ Hnd), Hlook. cbn [assoc getProp].
  destruct (reported (JObj ps) (JObj qs) k) eqn:Hrep; [now left|].
  unfold reported, hasOwnProperty, Object_keys in Hrep.
  cbn [getProp or_undefined truthy andb own_entries] in Hrep.
  rewrite !orb_false_r in Hrep.
  apply orb_false_iff in Hrep as [Hleft Hright].
  destruct (existsb (String.eqb k) (map fst ps)) eqn:Hin; cbn [andb negb] in Hleft, Hright.
  - right. split; [now destruct (assoc k ps)|]. now apply differs_false.
  - rewrite (assoc_fresh k ps Hin). rewrite andb_true_r in Hright.
    destruct (existsb (String.eqb k) (map fst qs)) eqn:Hq; [discriminate|].
    left. now rewrite (assoc_fresh k qs Hq).
Qed.

(** ** urlFor *)

Lemma run_until_segment s rest :
  no_slash s = true -> path_tail rest = true ->
  run_until is_slash (s ++ rest) = (s, rest).
Proof.
  intros Hs Hrest. induction s as [|c s IH]; cbn.
  - destruct rest as [|d rest]; [reflexivity|]. cbn [path_tail] in Hrest.
    cbn [run_until]. now rewrite Hrest.
  - cbn in Hs. apply andb_true_iff in Hs as [Hc Hs].
    destruct (is_slash c); [discriminate|]. now rewrite IH.
Qed.

(** The pattern reads the first two segments of the path. *)
Lemma match_two_segments c a tail :
  segment c = true -> segment a = true -> path_tail tail = true ->
  match_controller_action ("/" ++ c ++ "/" ++ a ++ tail) = Some (c, a).
Proof.
  unfold segment. intros Hc Ha Ht.
  apply andb_true_iff in Hc as [Hc1 Hc2]. apply andb_true_iff in Ha as [Ha1 Ha2].
  cbn [append match_controller_action]. change (is_slash "/") with true. cbn iota.
  rewrite (run_until_segment c (String "/" (a ++ tail)) Hc2 eq_refl).
  destruct c as [|x c]; [discriminate|]. cbn [append].
  rewrite (run_until_segment a tail Ha2 Ht).
  destruct a as [|y a]; [discriminate | reflexivity].
Qed.

Lemma run_until_no_slash s : no_slash s = true -> run_until is_slash s = (s, EmptyString).
Proof.
  induction s as [|c s IH]; cbn; [reflexivity|]. intros Hs.
  apply andb_true_iff in Hs as [Hc Hs].
  destruct (is_slash c); [discriminate|]. now rewrite IH.
Qed.

(** It finds nothing on a path of one segment, or on the root. *)
Lemma match_one_segment s :
  no_slash s = true -> match_controller_action ("/" ++ s) = None.
Proof.
  intros Hs. cbn [append match_controller_action]. change (is_slash "/") with true. cbn iota.
  rewrite (run_until_no_slash s Hs). now destruct s.
Qed.

Lemma urlForInner_no_match pathname opts :
  match_controller_action pathname = None ->
  exists e, urlForInner pathname opts = Throw e.
Proof. intros H. unfold urlForInner. rewrite H. eauto. Qed.

(** On a page whose path has fewer than two segments the interpreter throws,
    whatever it is asked, a controller and an action included; so it does on
    a path that does not begin with [/]. *)
Theorem urlFor_needs_two_segments s opts :
  (no_slash s = true -> exists e, default_urlFor ("/" ++ s) opts = Throw e)
  /\ (match s with String c _ => is_slash c = false | EmptyString => True end ->
      exists e, default_urlFor s opts = Throw e).
Proof.
  unfold default_urlFor. split.
  - intros Hs.
    destruct (urlForInner_no_match ("/" ++ s) opts (match_one_segment s Hs)) as (e & ->). eauto.
  - intros Hs.
    destruct (urlForInner_no_match s opts) as (e & ->); [|eauto].
    destruct s as [|c s]; [reflexivity|]. cbn. now rewrite Hs.
Qed.

Lemma assoc_remove_same k ps : assoc k (remove_key k ps) = None.
Proof.
  unfold remove_key. induction ps as [|[k' v] ps IH]; cbn; [reflexivity|].
  destruct (k' =? k) eqn:E; cbn; [exact IH|].
  rewrite String.eqb_sym, E. exact IH.
Qed.

Lemma assoc_remove_other k k' ps : k <> k' -> assoc k (remove_key k' ps) = assoc k ps.
Proof.
  intros Hne. unfold remove_key. induction ps as [|[k0 v] ps IH]; cbn; [reflexivity|].
  destruct (k0 =? k') eqn:E; cbn.
  - apply String.eqb_eq in E. subst k0. apply String.eqb_neq in Hne. now rewrite Hne.
  - now rewrite IH.
Qed.

Lemma remove_key_absent k ps : assoc k ps = None -> remove_key k ps = ps.
Proof.
  unfold remove_key. induction ps as [|[k' v] ps IH]; cbn; [reflexivity|].
  rewrite (String.eqb_sym k' k). destruct (k =? k'); [discriminate|]. cbn.
  intros H. now rewrite IH.
Qed.

(** What the interpreter answers on a page of two segments or more. *)
Lemma urlForInner_on_page c a tail ps :
  segment c = true -> segment a = true -> path_tail tail = true ->
  let rest := JObj (remove_key "controller" (remove_key "action" ps)) in
  urlForInner ("/" ++ c ++ "/" ++ a ++ tail) (JObj ps)
  = Return ("/" ++ ToString (option_or ps "controller" c) ++ "/"
            ++ ToString (option_or ps "action" a)
            ++ (if optsStr rest =? "" then "" else "?" ++ optsStr rest), rest).
Proof.
  intros Hc Ha Ht. cbv zeta. unfold urlForInner.
  rewrite (match_two_segments c a tail Hc Ha Ht). cbn [getProp delete or_undefined].
  unfold option_or. rewrite assoc_remove_other by discriminate. reflexivity.
Qed.

(** The interpreter consumes [action] and [controller] from the object it is
    given ([delete opts[actcon]]). The first call builds the URL from them; a
    second call on the same object finds them gone and builds it from the
    current path, with the same query. *)
Theorem urlFor_consumes_its_options c a tail ps :
  segment c = true -> segment a = true -> path_tail tail = true ->
  let page := "/" ++ c ++ "/" ++ a ++ tail in
  let rest := JObj (remove_key "controller" (remove_key "action" ps)) in
  let query := if optsStr rest =? "" then "" else "?" ++ optsStr rest in
  urlForInner page (JObj ps)
  = Return ("/" ++ ToString (option_or ps "controller" c) ++ "/"
            ++ ToString (option_or ps "action" a) ++ query, rest)
  /\ urlForInner page rest = Return ("/" ++ c ++ "/" ++ a ++ query, rest).
Proof.
  intros Hc Ha Ht. cbv zeta. unfold urlForInner.
  rewrite (match_two_segments c a tail Hc Ha Ht). cbn [getProp delete or_undefined].
  split.
  - unfold option_or. rewrite assoc_remove_other by discriminate. reflexivity.
  - assert (Hact : assoc "action" (remove_key "controller" (remove_key "action" ps)) = None)
      by (rewrite assoc_remove_other by discriminate; apply assoc_remove_same).
    assert (Hctl : assoc "controller" (remove_key "controller" (remove_key "action" ps)) = None)
      by apply assoc_remove_same.
    rewrite Hact. cbn [or_undefined truthy].
    rewrite (remove_key_absent "action" _ Hact), Hctl, (remove_key_absent "controller" _ Hctl).
    reflexivity.
Qed.

(** ** Routing with the first interpreter *)

Section Routing.

Variable W : Type.
Variable history : History W.

(** On a page whose path has fewer than two segments, a success whose
    response has a field besides [message] cannot be routed: the interpreter
    throws in the reaction, the promise handed to the caller is rejected and
    the history is left alone. *)
Theorem routed_redirect_needs_two_segments s (fn : ApiFn Outcome) url data net (w : W) v m :
  no_slash s = true ->
  settlement (fn url data resolve reject) net = Fulfilled v ->
  getProp v "message" = Some m ->
  existsb (fun p => negb (fst p =? "message")) (own_entries v) = true ->
  exists F e,
    wrap (default_urlFor ("/" ++ s)) fn url data {| routeWith := Some history |} net w
    = (Return F, w)
    /\ outcome F = Rejected e.
Proof.
  intros Hs Hv Hm Hfield.
  destruct (urlForInner_no_match ("/" ++ s)
              (JObj (filter (fun p => negb (fst p =? "message")) (own_entries v)))
              (match_one_segment s Hs))
    as (e & He).
  unfold wrap. cbn [routeWith]. unfold Promise_prototype_then. cbn [outcome new_promise].
  rewrite Hv.
  cbv [react route_success read bind try_catch ret throw modify lift]. rewrite Hm.
  replace (0 <? _)%nat with true.
  - unfold default_urlFor. rewrite He. do 2 eexists. split; reflexivity.
  - symmetry. apply Nat.ltb_lt. unfold Object_keys. cbn [own_entries]. rewrite length_map.
    apply existsb_exists in Hfield as (p & Hin & Hp).
    assert (Hin' : In p (filter (fun p => negb (fst p =? "message")) (own_entries v)))
      by (apply filter_In; auto).
    destruct (filter _ _); [destruct Hin' | cbn; lia].
Qed.

Variable JSON_parse : string -> option JsVal.

(** With the first interpreter, the Location header of a success is not where
    the router goes: answered [{message}] with a Location header, it pushes
    the current controller and action with the header as the query parameter
    [redirectTo], and the message as [serverMessage]. *)
Theorem location_becomes_query c a tail method url data r m l (w : W) :
  segment c = true -> segment a = true -> path_tail tail = true ->
  (200 <= status r < 300)%Z ->
  JSON_parse (responseText r) = Some (JObj [("message", m)]) ->
  Location r = Some l -> l <> "" ->
  exists F,
    wrap (default_urlFor ("/" ++ c ++ "/" ++ a ++ tail)) (api_fn JSON_parse method) url data
      {| routeWith := Some history |} (Answered r) w
    = (Return F,
       push history
         (JObj (set_own "state" (JObj [("serverMessage", m)])
                  (spread_with (location history w) "pathname"
                     (JStr ("/" ++ c ++ "/" ++ a ++ "?redirectTo=" ++ encodeURIComponent l)))))
         w)
    /\ outcome F = Fulfilled JUndefined.
Proof.
  intros Hc Ha Ht Hok Hparse Hloc Hl.
  unfold wrap. cbn [routeWith]. unfold Promise_prototype_then. cbn [outcome new_promise].
  rewrite api_settlement_success by exact Hok.
  unfold success_value. rewrite Hparse, Hloc. cbn [given].
  apply String.eqb_neq in Hl. rewrite Hl. cbn [negb assign set_own String.eqb Ascii.eqb Bool.eqb].
  cbv [react route_success read bind try_catch ret throw modify lift].
  cbn [getProp assoc or_undefined String.eqb Ascii.eqb Bool.eqb own_entries filter fst negb
         Object_keys map length Nat.ltb Nat.leb].
  unfold default_urlFor.
  pose proof (@urlForInner_on_page c a tail [("redirectTo", JStr l)] Hc Ha Ht) as Hurl.
  cbv zeta in Hurl. rewrite Hurl.
  eexists. split; reflexivity.
Qed.

End Routing.

(** ** More on how requests end *)

Lemma index_not_error i : ("error" =? string_of_nat i) = false.
Proof. unfold string_of_nat. now destruct (Nat.to_uint i). Qed.

Lemma assoc_error_chars i s : assoc "error" (char_entries i s) = None.
Proof.
  revert i. induction s as [|c s IH]; intros i; cbn [char_entries assoc]; [reflexivity|].
  now rewrite index_not_error.
Qed.

Section Endings.

Variable W : Type.
Variable urlFor : JsVal -> Completion string.
Variable JSON_parse : string -> option JsVal.

Lemma api_settlement_unreachable method url data r :
  status r = 0%Z ->
  settlement (api_fn JSON_parse method url data resolve reject) (Answered r)
  = Rejected (JStr "Could not reach the server").
Proof.
  intros Hz. destruct (api_fn_send JSON_parse method url data resolve reject) as (u & d & ->).
  now apply settlement_unreachable.
Qed.

(** A request that completes with status 0 rejects with "Could not reach the
    server", whatever the method, the body received and its headers: the
    body is not parsed. *)
Theorem unreachable_rejects method url data r (w : W) :
  status r = 0%Z ->
  exists F,
    JsonApi JSON_parse urlFor method url data (no_options W) (Answered r) w = (Return F, w)
    /\ outcome F = Rejected (JStr "Could not reach the server").
Proof.
  intros Hz. unfold JsonApi. rewrite wrap_no_options.
  eexists. split; [reflexivity|]. cbn [outcome makeCancellablePromise new_promise].
  now apply api_settlement_unreachable.
Qed.

(** A failure whose body is JSON but not an object: [null] rejects with the
    raw text, and a number, a boolean or a string rejects with that value
    itself, which is falsy for [0], [false] and the empty string. *)
Theorem failure_primitive_body method url data r parsed (w : W) :
  status r <> 0%Z -> ~ (200 <= status r < 300)%Z ->
  JSON_parse (responseText r) = Some parsed ->
  is_plain_object parsed = false -> parsed <> JUndefined ->
  exists F,
    JsonApi JSON_parse urlFor method url data (no_options W) (Answered r) w = (Return F, w)
    /\ outcome F = Rejected (if is_null parsed then raw_or_fallback (responseText r)
                             else parsed).
Proof.
  intros Hz Hfail Hparse Hprim Hdef. unfold JsonApi. rewrite wrap_no_options.
  eexists. split; [reflexivity|]. cbn [outcome makeCancellablePromise new_promise].
  rewrite api_settlement_failure by assumption. unfold failure_value. rewrite Hparse.
  destruct parsed as [| |b|n| |s|ps|es ps|ps c t|ps n c t|ps n m];
    try discriminate Hprim; try congruence; cbn [getProp is_null]; try reflexivity.
  now rewrite assoc_error_chars.
Qed.

(** With [routeWith], a success whose response is [null] is not routed: the
    reaction throws on reading [message], so the promise handed to the caller
    is rejected although the request succeeded, and the history is left
    alone. *)
Theorem routed_null_success_rejects (fn : ApiFn Outcome) url data history net (w : W) v :
  settlement (fn url data resolve reject) net = Fulfilled v ->
  is_nullish v = true ->
  exists F e,
    wrap urlFor fn url data {| routeWith := Some history |} net w = (Return F, w)
    /\ outcome F = Rejected e.
Proof.
  intros Hv Hnull. unfold wrap. cbn [routeWith].
  unfold Promise_prototype_then. cbn [outcome new_promise]. rewrite Hv.
  cbv [react route_success read bind try_catch ret throw modify lift].
  replace (getProp v "message") with (@None JsVal) by (now destruct v).
  do 2 eexists. split; reflexivity.
Qed.

End Endings.

(** A GET call with data that is truthy and has no property to send (no
    property at all, or only [null] and [undefined] ones) appends a bare [?]
    to the URL. *)
Theorem get_bare_question_mark JSON_parse St (success fail : JsVal -> M St unit) url data :
  truthy data = true ->
  forallb (fun k => is_nullish (or_undefined (getProp data k))) (Object_keys data) = true ->
  xhr_url (get_fn JSON_parse url data success fail) = url ++ "?".
Proof.
  intros Ht Hall. unfold get_fn. rewrite send_url, Ht, serializeUri_pairs.
  unfold query_pairs.
  replace (filter _ (Object_keys data)) with (@nil string); [reflexivity|].
  symmetry. induction (Object_keys data) as [|k keys IH]; [reflexivity|].
  cbn in *. apply andb_true_iff in Hall as [Hk Hrest]. rewrite Hk. cbn. now apply IH.
Qed.

(** ** The loader between requests *)

Section Reloading.

Variable JSON_parse : string -> option JsVal.
Variable urlFor : JsVal -> Completion string.
Variable generatePath : string -> JsVal -> string.
Variable apiUrl : string.
Variable options : LoaderOptions.

Lemma load_unsettled this_props props net (c : Component) :
  request_settlement JSON_parse generatePath apiUrl options props net = Pending ->
  load JSON_parse urlFor generatePath apiUrl options this_props props net c = (Return tt, c).
Proof.
  intros Hp.
  unfold load, JsonApi_get, JsonApi. rewrite (bind_returns _ (wrap_no_options _ _ _ _ _ _)).
  cbn [api_fn]. unfold request_settlement in Hp. rewrite Hp.
  cbv [then_ call_then own_then makeCancellablePromise new_promise outcome
         Promise_prototype_then react call_hook setState modify lift bind try_catch ret].
  now destruct (onLoad this_props).
Qed.

(** New props whose query and URL parameters are those of the current props,
    without a [NaN] in them, start no request and leave the component as it
    is. *)
Theorem same_query_no_reload this_props next net (c : Component) :
  the_getApiQuery options next = the_getApiQuery options this_props ->
  the_getUrlParams options next = the_getUrlParams options this_props ->
  NaN_free (the_getApiQuery options this_props) = true ->
  NaN_free (the_getUrlParams options this_props) = true ->
  componentWillReceiveProps JSON_parse urlFor generatePath apiUrl options this_props next net c
  = (Return tt, c).
Proof.
  intros Hq Hu Fq Fu. unfold componentWillReceiveProps. rewrite Hq, Hu.
  unfold deepCompare.
  rewrite !deepCompare_fuel_refl by (try lia; assumption). reflexivity.
Qed.

(** When the query changes, the data is dropped and the recorded error is
    kept: until the new request is answered the component shows the error of
    the previous query, if there was one, and not the loading placeholder. *)
Theorem changed_query_keeps_error this_props next net (c : Component) :
  deepCompare (the_getApiQuery options this_props) (the_getApiQuery options next) = false
  \/ deepCompare (the_getUrlParams options this_props) (the_getUrlParams options next) = false ->
  request_settlement JSON_parse generatePath apiUrl options next net = Pending ->
  exists c',
    componentWillReceiveProps JSON_parse urlFor generatePath apiUrl options
      this_props next net c = (Return tt, c')
    /\ state c' = {| data := JNull; errorStatus := errorStatus (state c) |}
    /\ render options next (state c')
       = (if truthy (errorStatus (state c)) then ErrorPlaceholder (errorStatus (state c))
          else LoadingPlaceholder).
Proof.
  intros Hchanged Hp. unfold componentWillReceiveProps.
  replace (negb _ || negb _) with true
    by (destruct Hchanged as [-> | ->]; cbn; now rewrite ?orb_true_r).
  unfold setState at 1. cbv [bind modify ret]. rewrite load_unsettled by exact Hp.
  eexists. split; [reflexivity|]. cbn. split; reflexivity.
Qed.

(** Once the component holds truthy data, a request that fails changes
    nothing of what it renders, whatever [onError] does: the error is
    recorded at most, and never shown. *)
Theorem failed_reload_is_not_shown this_props props net e (c : Component) :
  request_settlement JSON_parse generatePath apiUrl options props net = Rejected e ->
  truthy (data (state c)) = true ->
  exists c',
    load JSON_parse urlFor generatePath apiUrl options this_props props net c = (Return tt, c')
    /\ data (state c') = data (state c)
    /\ forall shown, render options shown (state c') = render options shown (state c).
Proof.
  intros Hfail Hdata.
  unfold load, JsonApi_get, JsonApi. rewrite (bind_returns _ (wrap_no_options _ _ _ _ _ _)).
  cbn [api_fn]. unfold request_settlement in Hfail. rewrite Hfail.
  cbv [then_ call_then own_then makeCancellablePromise new_promise outcome
         Promise_prototype_then react call_hook setState modify lift bind try_catch ret].
  assert (Hrender : forall s shown,
             data s = data (state c) -> render options shown s = render options shown (state c)).
  { intros s shown Hs. unfold render. now rewrite Hs, Hdata. }
  destruct (onError props) as [hook|]; cbn;
    [destruct (hook e) as [answer|x]; cbn;
     [destruct (strict_eq answer (JBool false)); cbn|]|];
    (destruct (onLoad this_props) as [h|]; cbn; [destruct (h JUndefined); cbn|]);
    eexists; (split; [reflexivity|]); cbn; (split; [reflexivity|]);
    intros shown; now apply Hrender.
Qed.

(** When [onError] throws, the error is not recorded, and [onLoad] is not
    called although the component has it. *)
Theorem onError_throws_skips_onLoad this_props props net hook e x (c : Component) :
  onError props = Some hook ->
  request_settlement JSON_parse generatePath apiUrl options props net = Rejected e ->
  hook e = Throw x ->
  load JSON_parse urlFor generatePath apiUrl options this_props props net c
  = (Return tt, {| state := state c; events := (events c ++ [Called OnError e])%list |}).
Proof.
  intros Hhook Hfail Hthrow.
  unfold load, JsonApi_get, JsonApi. rewrite (bind_returns _ (wrap_no_options _ _ _ _ _ _)).
  cbn [api_fn]. unfold request_settlement in Hfail. rewrite Hfail, Hhook.
  cbv [then_ call_then own_then makeCancellablePromise new_promise outcome
         Promise_prototype_then react call_hook setState modify lift bind try_catch ret].
  rewrite Hthrow. now destruct (onLoad this_props).
Qed.

(** A request rejected with a falsy value (a failure whose body is [0],
    [false] or an empty JSON string) leaves a component without data on the
    loading placeholder: the error is stored and not shown. *)
Theorem falsy_error_keeps_loading this_props props net e (c : Component) :
  request_settlement JSON_parse generatePath apiUrl options props net = Rejected e ->
  truthy e = false ->
  onError props = None ->
  truthy (data (state c)) = false ->
  exists c',
    load JSON_parse urlFor generatePath apiUrl options this_props props net c = (Return tt, c')
    /\ errorStatus (state c') = e
    /\ forall shown, render options shown (state c') = LoadingPlaceholder.
Proof.
  intros Hfail He Hhook Hdata.
  unfold load, JsonApi_get, JsonApi. rewrite (bind_returns _ (wrap_no_options _ _ _ _ _ _)).
  cbn [api_fn]. unfold request_settlement in Hfail. rewrite Hfail, Hhook.
  cbv [then_ call_then own_then makeCancellablePromise new_promise outcome
         Promise_prototype_then react call_hook setState modify lift bind try_catch ret].
  destruct (onLoad this_props) as [h|]; cbn; [destruct (h JUndefined); cbn|];
    eexists; (split; [reflexivity|]); cbn; (split; [reflexivity|]);
    intros shown; unfold render; cbn; now rewrite Hdata, He.
Qed.

End Reloading.

(** ** generatePath *)

Lemma run_until_host_no_slash rest :
  no_slash rest = true ->
  match snd (run_until host_stop rest) with
  | String sep _ => is_slash sep = false
  | EmptyString => True
  end.
Proof.
  induction rest as [|c rest IH]; cbn; [trivial|]. intros H.
  apply andb_true_iff in H as [Hc Hrest]. unfold host_stop at 1.
  destruct (is_slash c) eqn:Ec; [discriminate|]. cbn [orb].
  destruct (Ascii.eqb c "@"); cbn; [exact Ec|].
  specialize (IH Hrest). now destruct (run_until host_stop rest).
Qed.

Lemma run_until_host_at user more :
  no_slash user = true ->
  match snd (run_until host_stop (user ++ String "@" more)) with
  | String sep _ => is_slash sep = false
  | EmptyString => True
  end.
Proof.
  induction user as [|c user IH]; cbn; [reflexivity|]. intros H.
  apply andb_true_iff in H as [Hc Huser]. unfold host_stop at 1.
  destruct (is_slash c) eqn:Ec; [discriminate|]. cbn [orb].
  destruct (Ascii.eqb c "@"); cbn; [exact Ec|].
  specialize (IH Huser). now destruct (run_until host_stop (user ++ String "@" more)).
Qed.

Lemma split_host_fails sch rest :
  scheme (sch ++ rest) = Some (sch, rest) ->
  match snd (run_until host_stop rest) with
  | String sep _ => is_slash sep = false
  | EmptyString => True
  end ->
  exists e, split_host (sch ++ rest) = Throw e.
Proof.
  intros Hs Hrun. unfold split_host. rewrite Hs.
  destruct (run_until host_stop rest) as [[|c host] [|sep p]]; cbn in *; eauto.
  rewrite Hrun. eauto.
Qed.

Lemma generatePath_split_fails compile path params st e :
  split_host path = Throw e -> generatePath compile path params st = (Throw e, st).
Proof.
  intros H. unfold generatePath, compilePath. cbv [bind lift]. now rewrite H.
Qed.

(** An absolute URL needs a [/] after its host, and no [@] before it:
    without one, or with credentials in front of the host, [generatePath]
    throws and stores nothing. *)
Theorem host_needs_a_slash compile sch params st :
  sch = "http://" \/ sch = "https://" ->
  (forall rest, no_slash rest = true ->
     exists e, generatePath compile (sch ++ rest) params st = (Throw e, st))
  /\ (forall user more, no_slash user = true ->
        exists e, generatePath compile (sch ++ user ++ "@" ++ more) params st = (Throw e, st)).
Proof.
  intros Hsch.
  assert (Hscheme : forall rest, scheme (sch ++ rest) = Some (sch, rest))
    by (intros rest; destruct Hsch as [-> | ->]; reflexivity).
  split.
  - intros rest Hrest.
    destruct (@split_host_fails sch rest (Hscheme rest) (@run_until_host_no_slash rest Hrest))
      as [e He].
    exists e. now apply generatePath_split_fails.
  - intros user more Huser. cbn [append].
    destruct (@split_host_fails sch (user ++ String "@" more) (Hscheme _)
                (@run_until_host_at user more Huser)) as [e He].
    exists e. now apply generatePath_split_fails.
Qed.

Lemma own_entry_cons p e rest : own_entry p ((p, e) :: rest) = Some e.
Proof. cbn. now rewrite String.eqb_refl. Qed.

(** The cache is keyed by the path without its host, and an entry keeps the
    host it was made with: once a path is cached, the same path under another
    host, or without one, is answered with the first host. *)
Theorem first_host_is_reused compile path1 path2 h1 h2 p g params1 params2 st :
  split_host path1 = Return (h1, p) -> split_host path2 = Return (h2, p) ->
  path1 <> "/" -> path2 <> "/" ->
  cached p st = Undefined -> (cacheCount st < cacheLimit)%N ->
  compile p = Return g ->
  exists st1,
    generatePath compile path1 params1 st = (prefixed h1 (g params1), st1)
    /\ generatePath compile path2 params2 st1 = (prefixed h1 (g params2), st1).
Proof.
  intros H1 H2 N1 N2 Hmiss Hroom Hg.
  apply String.eqb_neq in N1, N2.
  unfold generatePath, compilePath. cbv [bind lift ret throw]. rewrite H1, H2, Hmiss, Hg.
  apply N.ltb_lt in Hroom. rewrite Hroom, N1, N2. cbn [generator protocolAndHostname].
  eexists. split.
  - destruct (g params1); reflexivity.
  - unfold cached. cbn [cache]. rewrite own_entry_cons.
    cbn [generator protocolAndHostname]. destruct (g params2); reflexivity.
Qed.

Lemma own_entry_absent p entries :
  own_entry p entries = None -> ~ In p (map fst entries).
Proof.
  induction entries as [|[k e] entries IH]; cbn; [tauto|].
  destruct (p =? k) eqn:E; [discriminate|]. apply String.eqb_neq in E.
  intros H [Hk | Hin]; [congruence | now apply IH].
Qed.

Lemma compilePath_well_formed compile path st :
  well_formed st -> well_formed (snd (compilePath compile path st)).
Proof.
  intros Hwf. unfold compilePath. cbv [bind lift].
  destruct (split_host path) as [[h p]|e]; [|exact Hwf].
  unfold cached. destruct (own_entry p (cache st)) eqn:Hown; [exact Hwf|].
  destruct (inherited p) eqn:Hinh; [exact Hwf|].
  destruct (compile p) as [g|e]; [|exact Hwf]. cbn [snd].
  destruct (cacheCount st <? cacheLimit)%N eqn:Hroom; [|exact Hwf].
  apply N.ltb_lt in Hroom. destruct Hwf as (Hcount & Hlimit & Hnodup & Hnames).
  unfold well_formed. cbn [cache cacheCount map fst length].
  repeat split.
  - lia.
  - lia.
  - constructor; [now apply own_entry_absent | exact Hnodup].
  - constructor; assumption.
Qed.

(** Whatever is asked and however the call ends, the counter equals the
    number of entries, never passes the limit of 10000, and no path is stored
    twice. *)
Theorem cache_stays_well_formed compile path params st :
  well_formed st -> well_formed (snd (generatePath compile path params st)).
Proof.
  intros Hwf. pose proof (@compilePath_well_formed compile path st Hwf) as H.
  unfold generatePath. cbv [bind].
  destruct (compilePath compile path st) as [[found|e] st1]; cbn [snd] in *; [|exact H].
  destruct (path =? "/"); [exact H|].
  destruct found as [entry|]; [|exact H].
  cbv [lift ret]. now destruct (generator entry params).
Qed.

Lemma own_entry_in p e entries : own_entry p entries = Some e -> In p (map fst entries).
Proof.
  induction entries as [|[k x] entries IH]; cbn; [discriminate|].
  destruct (String.eqb_spec p k) as [->|Hne]; [now left | right; now apply IH].
Qed.

Lemma inherited_not_stored p st :
  well_formed st -> inherited p = true -> own_entry p (cache st) = None.
Proof.
  intros (_ & _ & _ & Hnames) Hp.
  destruct (own_entry p (cache st)) as [e|] eqn:He; [|reflexivity].
  apply own_entry_in in He. rewrite Forall_forall in Hnames.
  specialize (Hnames p He). congruence.
Qed.

(** Among paths without a scheme the cache is not observable, but for the
    names of the members of [Object.prototype]. When every entry is what
    [compile] makes of its key, a call returns what compiling the path again
    and calling the result would, and the entries stay that way; a path of
    [/] is compiled as well, and returned as it is. A path that is the name
    of an inherited member ([constructor], [toString], ...) is never
    compiled: the call throws. *)
Theorem relative_paths_are_memoised compile path params st :
  memo_of compile st -> well_formed st -> scheme path = None ->
  fst (generatePath compile path params st)
  = (if inherited path then Throw (TypeError "generator is not a function")
     else match compile path with
          | Throw e => Throw e
          | Return g => if path =? "/" then Return path else g params
          end)
  /\ memo_of compile (snd (generatePath compile path params st)).
Proof.
  intros Hmemo Hwf Hrel.
  unfold generatePath, compilePath, split_host. rewrite Hrel. cbv [bind lift ret throw].
  unfold cached. destruct (inherited path) eqn:Hown.
  - rewrite (inherited_not_stored path Hwf Hown).
    replace (path =? "/") with false; [split; [reflexivity | exact Hmemo]|].
    symmetry. apply String.eqb_neq. intros ->. discriminate Hown.
  - destruct (own_entry path (cache st)) as [entry|] eqn:Hentry.
    + destruct (Hmemo path entry Hentry) as [Hhost Hcompile]. rewrite Hcompile.
      destruct (path =? "/"); [split; [reflexivity | exact Hmemo]|].
      rewrite Hhost. destruct (generator entry params); (split; [reflexivity | exact Hmemo]).
    + destruct (compile path) as [g|e] eqn:Hc; [|split; [reflexivity | exact Hmemo]].
      assert (Hnext : memo_of compile
                (if (cacheCount st <? cacheLimit)%N
                 then {| cache := (path, {| protocolAndHostname := EmptyString;
                                             generator := g |}) :: cache st;
                         cacheCount := cacheCount st + 1 |}
                 else st)).
      { destruct (cacheCount st <? cacheLimit)%N; [|exact Hmemo].
        intros p e. cbn [cache own_entry].
        destruct (p =? path) eqn:E.
        - apply String.eqb_eq in E. subst p. intros [= <-]. cbn.
          split; [reflexivity | exact Hc].
        - apply Hmemo. }
      destruct (path =? "/"); [split; [reflexivity | exact Hnext]|].
      cbn [generator protocolAndHostname].
      destruct (g params); (split; [reflexivity | exact Hnext]).
Qed.

(** ** The composer *)

Lemma falsy_no_entries v : truthy v = false -> own_entries v = [].
Proof.
  destruct v as [| |b|n| |s|ps|es ps|ps c t|ps n c t|ps n m]; try discriminate; try reflexivity.
  cbn. destruct s; [reflexivity | discriminate].
Qed.

Lemma Object_assign_falsy target v : truthy v = false -> Object_assign target v = target.
Proof. intros H. unfold Object_assign. now rewrite falsy_no_entries. Qed.

Section Composing.

Import Composer.

Variable JSON_parse : string -> option JsVal.
Variable urlFor : JsVal -> Completion string.
Variable generatePath : string -> JsVal -> Completion string.
Variable saveUrl : string.
Variable integrationSpec : Integration.

(** A composer built with [defaultValue] starts from [defaultState] and
    takes from the deserialized value every own property that is not [null]:
    a [null] field keeps the default, an [undefined] one replaces it. *)
Theorem constructor_defaults props f d (c : Component) :
  truthy (defaultValue props) = true -> truthy (existingObject props) = false ->
  deserialize integrationSpec = Some f -> f (defaultValue props) = Return d ->
  exists data,
    constructor integrationSpec props c
    = (Return tt, {| state := [("data", JObj data)]; calls := calls c |})
    /\ forall k,
         assoc k data
         = if existsb (String.eqb k) (Object_keys d)
              && negb (strict_eq (or_undefined (getProp d k)) JNull)
           then Some (or_undefined (getProp d k))
           else assoc k (Object_assign [] (defaultState integrationSpec)).
Proof.
  intros Hdv Heo Hf Hd. unfold constructor, call_deserialize.
  rewrite Hdv, Heo, Hf, !andb_false_r.
  cbv [bind lift ret modify]. rewrite Hd.
  eexists. split; [reflexivity|]. intros k.
  rewrite Object_assign_falsy by exact Heo.
  unfold filterNulls, Object_assign at 1. cbn [own_entries].
  rewrite assoc_spread_NoDup by (apply filterNulls_loop_NoDup; constructor).
  rewrite filterNulls_loop. cbn [assoc].
  now destruct (existsb (String.eqb k) (Object_keys d) && _).
Qed.

(** Without [deserialize] a composer can be built with neither
    [defaultValue] nor [existingObject]: the constructor returns exactly when
    both are falsy, and the data is then a copy of [defaultState]. *)
Theorem create_only_takes_no_record props (c : Component) :
  deserialize integrationSpec = None ->
  match constructor integrationSpec props c with
  | (Return _, c') =>
      truthy (defaultValue props) = false /\ truthy (existingObject props) = false
      /\ state c' = [("data", JObj (Object_assign [] (defaultState integrationSpec)))]
  | (Throw _, c') =>
      (truthy (defaultValue props) = true \/ truthy (existingObject props) = true)
      /\ c' = c
  end.
Proof.
  intros Hnone. unfold constructor, call_deserialize. rewrite Hnone.
  destruct (truthy (defaultValue props)) eqn:Hdv, (truthy (existingObject props)) eqn:Heo;
    cbn [andb]; try (destruct (canEdit integrationSpec); cbn [negb andb]);
    cbv [bind lift ret modify throw]; cbn [state]; auto.
  all: rewrite !Object_assign_falsy by assumption; auto.
Qed.

(** New props never change [state.data] unless [deserialize] returns an
    object with a property called [data]: what it returns is merged into the
    state itself, beside the data of the form. *)
Theorem new_props_keep_data this_props next (c : Component) :
  (forall f v d, deserialize integrationSpec = Some f -> f v = Return d ->
                 assoc "data" (own_entries d) = None) ->
  assoc "data" (state (snd (componentWillReceiveProps integrationSpec this_props next c)))
  = assoc "data" (state c).
Proof.
  intros Hplain.
  assert (Hstep : forall v (c0 : Component),
            assoc "data"
              (state (snd ((d <- call_deserialize integrationSpec v ;; setState d) c0)))
            = assoc "data" (state c0)).
  { intros v c0. unfold call_deserialize.
    destruct (deserialize integrationSpec) as [f|] eqn:Hf; cbv [bind lift throw]; [|reflexivity].
    destruct (f v) as [d|e] eqn:Hd; [|reflexivity].
    unfold setState. destruct (is_object d || strict_eq d JUndefined); [|reflexivity].
    cbv [modify]. cbn [snd state]. unfold Object_assign.
    apply assoc_spread_into. exact (Hplain f v d eq_refl Hd). }
  assert (Hseq : forall (a b : M Component unit),
            (forall c0, assoc "data" (state (snd (a c0))) = assoc "data" (state c0)) ->
            (forall c0, assoc "data" (state (snd (b c0))) = assoc "data" (state c0)) ->
            forall c0, assoc "data" (state (snd ((a ;;; b) c0))) = assoc "data" (state c0)).
  { intros a b Ha Hb c0. unfold bind. specialize (Ha c0).
    destruct (a c0) as [[[]|e] c1]; cbn [snd] in *; [now rewrite Hb | exact Ha]. }
  unfold componentWillReceiveProps.
  destruct (negb (canEdit integrationSpec) && truthy (existingObject next)); [reflexivity|].
  destruct (truthy (defaultValue this_props) && truthy (existingObject next)
            || truthy (existingObject this_props) && truthy (defaultValue next)); [reflexivity|].
  apply Hseq; intros c0.
  - destruct (canEdit integrationSpec && _); [apply Hstep | reflexivity].
  - destruct (canEdit integrationSpec && _); [apply Hstep | reflexivity].
Qed.

(** [set(key)(value)] writes one field of the data and leaves the others,
    and the rest of the state, as they were. *)
Theorem set_then_get key value data (c : Component) :
  assoc "data" (state c) = Some (JObj data) -> NoDup (map fst data) ->
  exists data',
    set key value c = (Return tt, {| state := set_own "data" (JObj data') (state c);
                                     calls := calls c |})
    /\ forall k, assoc k data' = if k =? key then Some value else assoc k data.
Proof.
  intros Hdata Hnd. unfold set, setData, gets, setState. cbv [bind]. rewrite Hdata.
  cbn [or_undefined is_object typeof JsType_eqb orb]. cbv [modify].
  eexists. split; [reflexivity|]. intros k.
  unfold Object_assign. cbn [own_entries spread_into fold_left fst snd].
  fold (spread_into [] data).
  destruct (String.eqb_spec k key) as [->|Hne].
  - apply assoc_set_own_same.
  - rewrite assoc_set_own_other by exact Hne.
    now rewrite assoc_spread_NoDup by exact Hnd; destruct (assoc k data).
Qed.

End Composing.

(** ** Submitting *)

Section Submitting.

Import Composer.

Variable JSON_parse : string -> option JsVal.
Variable urlFor : JsVal -> Completion string.
Variable generatePath : string -> JsVal -> Completion string.
Variable saveUrl : string.
Variable integrationSpec : Integration.

(** The request of [submit] is a POST for a new record and a PATCH for an
    existing one, and its two reactions run on how it ends. *)
Lemma send_attributes_reacts props url attributes net (c : Component) :
  send_attributes JSON_parse urlFor props url attributes net c
  = react
      (settlement
         (api_fn JSON_parse (if isNew props then POST else PATCH) url attributes
            resolve reject) net)
      (Some (submitted props)) (Some (refused props)) c.
Proof.
  unfold send_attributes, apiRequest, JsonApi.
  destruct (isNew props);
    rewrite (bind_returns _ (wrap_no_options _ _ _ _ _ _));
    cbv [then_ call_then own_then makeCancellablePromise new_promise outcome
           Promise_prototype_then];
    match goal with
    | |- context [react ?o ?f ?g] =>
        destruct (react_returns o f g c) as (o' & c' & Ho)
    end;
    unfold bind; rewrite Ho; reflexivity.
Qed.




(** What [buildAttributes] returns for a new record: the serialized data. *)
Lemma buildAttributes_new St initial updated attributes (s : St) :
  truthy initial = false ->
  serialize integrationSpec updated = Return attributes ->
  buildAttributes integrationSpec initial updated s = (Return attributes, s).
Proof.
  intros Hnew Hser. unfold buildAttributes. cbv [bind lift]. rewrite Hser, Hnew.
  now rewrite andb_false_r.
Qed.

(** [submit] for a new record that is sent to [saveUrl]. *)
Lemma submit_new props net attributes (c : Component) :
  truthy (existingObject props) = false ->
  serialize integrationSpec (or_undefined (assoc "data" (state c))) = Return attributes ->
  is_nullish attributes = false ->
  (length (Object_keys attributes) =? 1)%nat
  && truthy (or_undefined (getProp attributes "id")) = false ->
  getUrlParams integrationSpec = None ->
  submit JSON_parse urlFor generatePath saveUrl integrationSpec props net c
  = react
      (settlement (api_fn JSON_parse POST saveUrl attributes resolve reject) net)
      (Some (submitted props)) (Some (refused props)) c.
Proof.
  intros Hnew Hser Hsome Hchanged Hurl.
  pose proof (send_attributes_reacts props saveUrl attributes net c) as Hsend.
  unfold isNew in Hsend. rewrite Hnew in Hsend. cbn [negb] in Hsend.
  unfold submit, try_catch, gets. unfold bind at 1. unfold bind at 1.
  rewrite (@buildAttributes_new Component _ _ attributes c Hnew Hser).
  unfold keys_of. rewrite Hsome. unfold bind at 1. cbv [ret]. rewrite Hchanged, Hurl.
  unfold bind at 1. rewrite Hsend.
  destruct (react_returns
              (settlement (api_fn JSON_parse POST saveUrl attributes resolve reject) net)
              (Some (submitted props)) (Some (refused props)) c) as (o & c' & ->).
  reflexivity.
Qed.


(** When the server accepts a new record and answers with a Location header
    and a JSON object, the state takes the header as [redirectTo], whatever
    the object holds under that name, and its [message] as [serverMessage];
    [onSuccess] receives the message and the [id]. *)
Theorem created_record_redirects props r attributes body l (c : Component) :
  truthy (existingObject props) = false ->
  serialize integrationSpec (or_undefined (assoc "data" (state c))) = Return attributes ->
  is_nullish attributes = false ->
  (length (Object_keys attributes) =? 1)%nat
  && truthy (or_undefined (getProp attributes "id")) = false ->
  getUrlParams integrationSpec = None ->
  (200 <= status r < 300)%Z ->
  JSON_parse (responseText r) = Some (JObj body) ->
  Location r = Some l -> l <> "" ->
  let message := or_undefined (assoc "message" body) in
  let detail := JObj [("serverMessage", message); ("id", or_undefined (assoc "id" body))] in
  match onSuccess props with
  | Some callback => callback detail = Return tt
  | None => True
  end ->
  exists c',
    submit JSON_parse urlFor generatePath saveUrl integrationSpec props (Answered r) c
    = (Return (Fulfilled JUndefined), c')
    /\ state c' = set_own "serverMessage" message (set_own "redirectTo" (JStr l) (state c))
    /\ calls c' = (calls c ++ match onSuccess props with
                              | Some _ => [(OnSuccess, detail)]
                              | None => []
                              end)%list.
Proof.
  intros Hnew Hser Hsome Hchanged Hurl Hok Hbody Hloc Hl message detail Hcallback.
  rewrite (@submit_new props (Answered r) attributes c Hnew Hser Hsome Hchanged Hurl).
  rewrite api_settlement_success by assumption.
  unfold success_value. rewrite Hbody, Hloc. unfold given.
  apply String.eqb_neq in Hl. rewrite Hl. cbn [negb assign].
  cbv [react submitted read call setState try_catch bind ret lift modify throw].
  cbn [getProp]. rewrite assoc_set_own_same.
  rewrite !assoc_set_own_other by discriminate.
  fold message. fold detail. cbn [or_undefined truthy]. rewrite Hl. cbn [negb].
  cbn [is_object typeof JsType_eqb orb state calls].
  destruct (onSuccess props) as [callback|].
  - rewrite Hcallback. eexists. split; [reflexivity|]. split; reflexivity.
  - eexists. split; [reflexivity|]. cbn [state calls]. split; [reflexivity|].
    now rewrite app_nil_r.
Qed.

End Submitting.

(** ** The default server handler *)

Lemma string_of_nat_inj i j : string_of_nat i = string_of_nat j -> i = j.
Proof.
  assert (Hnn : forall n, Nat.to_uint n <> Decimal.Nil).
  { intros n. rewrite <- (DecimalNat.Unsigned.of_to n) at 1.
    rewrite DecimalNat.Unsigned.to_of. apply DecimalFacts.unorm_nonnil. }
  unfold string_of_nat. intros H.
  apply (f_equal NilZero.uint_of_string) in H.
  rewrite !NilZero.usu in H by apply Hnn.
  injection H as H. now apply DecimalNat.Unsigned.to_uint_inj.
Qed.

Lemma char_entries_keys j s k :
  In k (map fst (char_entries j s)) -> exists m, j <= m /\ k = string_of_nat m.
Proof.
  revert j. induction s as [|c s IH]; intros j; cbn; [tauto|].
  intros [<- | Hin]; [exists j; split; [lia | reflexivity]|].
  destruct (IH (S j) Hin) as (m & Hm & ->). exists m. split; [lia | reflexivity].
Qed.

(** Reading a string at each of its own keys gives its characters. *)
Lemma char_entries_read {A} (G : string -> option JsVal -> A) s :
  forall j pre,
    (forall k, In k (map fst (char_entries j s)) -> assoc k pre = None) ->
    map (fun k => G k (assoc k (pre ++ char_entries j s)%list)) (map fst (char_entries j s))
    = map (fun p => G (fst p) (Some (snd p))) (char_entries j s).
Proof.
  induction s as [|c s IH]; intros j pre Hpre; cbn [char_entries map fst snd]; [reflexivity|].
  f_equal.
  - rewrite assoc_app, Hpre by (now left). cbn [assoc]. now rewrite String.eqb_refl.
  - specialize (IH (S j) (pre ++ [(string_of_nat j, JStr (String c EmptyString))])%list).
    rewrite <- app_assoc in IH. cbn [app] in IH. apply IH.
    intros k Hin. rewrite assoc_app, Hpre by (now right). cbn [assoc].
    destruct (String.eqb_spec k (string_of_nat j)) as [->|Hne]; [|reflexivity].
    destruct (@char_entries_keys _ _ _ Hin) as (m & Hm & Heq).
    apply string_of_nat_inj in Heq. lia.
Qed.

Lemma assoc_word_chars w j s :
  (forall i, (w =? string_of_nat i) = false) -> assoc w (char_entries j s) = None.
Proof.
  intros Hw. revert j. induction s as [|c s IH]; intros j; cbn [char_entries assoc];
    [reflexivity|]. now rewrite Hw.
Qed.

Lemma index_not_action i : ("action" =? string_of_nat i) = false.
Proof. unfold string_of_nat. now destruct (Nat.to_uint i). Qed.

Lemma index_not_controller i : ("controller" =? string_of_nat i) = false.
Proof. unfold string_of_nat. now destruct (Nat.to_uint i). Qed.

Lemma optsStr_string s : optsStr (JStr s) = spelled s.
Proof.
  unfold optsStr, spelled. f_equal.
  pose proof (@char_entries_read string
                (fun key o =>
                   String.concat "="
                     (map encodeURIComponent
                        [key; ToString (or_undefined
                                 (Some match o with
                                       | Some x => x
                                       | None => if key =? "length" then len s else JUndefined
                                       end))]))
                s 0 [] (fun _ _ => eq_refl)) as H.
  etransitivity; [exact H|]. apply map_ext. intros [k v]. reflexivity.
Qed.

Lemma spelled_not_empty s : s <> "" -> (spelled s =? "") = false.
Proof.
  destruct s as [|c s]; [congruence|]. intros _. unfold spelled.
  cbn [char_entries map fst snd String.concat].
  change (encodeURIComponent (string_of_nat 0)) with "0".
  now destruct (map _ (char_entries 1 s)).
Qed.

(** Given a string, the interpreter spells it: the path of the current page,
    and one query parameter for each character. *)
Lemma urlFor_string c a tail s :
  segment c = true -> segment a = true -> path_tail tail = true -> s <> "" ->
  default_urlFor ("/" ++ c ++ "/" ++ a ++ tail) (JStr s)
  = Return ("/" ++ c ++ "/" ++ a ++ "?" ++ spelled s).
Proof.
  intros Hc Ha Ht Hs. unfold default_urlFor, urlForInner.
  rewrite (match_two_segments c a tail Hc Ha Ht).
  cbn [getProp delete]. rewrite !assoc_word_chars by (apply index_not_action || apply index_not_controller).
  cbn [String.eqb Ascii.eqb Bool.eqb or_undefined truthy ToString].
  replace ("action" =? "length") with false by reflexivity.
  replace ("controller" =? "length") with false by reflexivity.
  cbn [truthy ToString]. rewrite optsStr_string, (spelled_not_empty Hs). reflexivity.
Qed.

(** A redirect that came as a Location header is a string in the state of
    the composer, and the default handler passes it to [urlFor] as if it were
    an object of options: the Continue link leads to the current page, with
    the header spelled out character by character in the query. *)
Theorem continue_link_spells_the_header c a tail l state :
  segment c = true -> segment a = true -> path_tail tail = true ->
  assoc "redirectTo" state = Some (JStr l) -> l <> "" ->
  let link := Element {| href := "/" ++ c ++ "/" ++ a ++ "?" ++ spelled l |} in
  let box := fun text =>
    if truthy text then Element {| message := text; redirect := link |} else Value text in
  DefaultServerHandler (default_urlFor ("/" ++ c ++ "/" ++ a ++ tail)) (handler_props state)
  = Return (box (or_undefined (assoc "errorMessage" state)),
            box (or_undefined (assoc "serverMessage" state))).
Proof.
  intros Hc Ha Ht Hredirect Hl link box.
  unfold DefaultServerHandler, handler_props. cbn [redirectTo errorMessage serverMessage].
  rewrite Hredirect. cbn [or_undefined truthy].
  apply String.eqb_neq in Hl as Hl'. rewrite Hl'. cbn [negb].
  now rewrite (@urlFor_string c a tail l Hc Ha Ht Hl).
Qed.

(** ** The properties above, on examples *)

(** A parsed list of records equals itself. *)
Lemma deepCompare_refl_records :
  deepCompare (JArr [JObj [("id", JNum 1); ("name", JStr "x")]] [])
              (JArr [JObj [("id", JNum 1); ("name", JStr "x")]] []) = true.
Proof.
  exact (@deepCompare_refl (JArr [JObj [("id", JNum 1); ("name", JStr "x")]] []) eq_refl).
Defined.

(** [objectDiff({a: 1}, undefined)] throws. *)
Lemma objectDiff_against_undefined :
  exists e, objectDiff (JObj [("a", JNum 1)]) JUndefined = Throw e.
Proof. exact (@objectDiff_against_nothing (JObj [("a", JNum 1)]) JUndefined eq_refl). Defined.

(** Patching [{a: 1, b: 2}] towards [{a: 1, b: 3, c: 4}]: [b] becomes 3. *)
Lemma objectDiff_patch_b :
  or_undefined
    (assoc "b"
       (Object_assign (Object_assign [] (JObj [("a", JNum 1); ("b", JNum 2)]))
          (JObj [("b", JNum 3); ("c", JNum 4)])))
  = JNum 3
  \/ (or_undefined
        (assoc "b"
           (Object_assign (Object_assign [] (JObj [("a", JNum 1); ("b", JNum 2)]))
              (JObj [("b", JNum 3); ("c", JNum 4)])))
      = JNum 2
      /\ (deepCompare (JNum 2) (JNum 3) = true
          \/ is_nullish (JNum 2) && is_nullish (JNum 3) = true)).
Proof.
  refine (@objectDiff_patch [("a", JNum 1); ("b", JNum 2)]
            [("a", JNum 1); ("b", JNum 3); ("c", JNum 4)]
            [("b", JNum 3); ("c", JNum 4)] _ eq_refl "b").
  constructor; [cbn; intros [H|[]]; discriminate H|].
  constructor; [intros []|]. constructor.
Defined.

(** On the page [/people/new]: [{action: "show", id: 5}] gives
    [/people/show?id=5], and the object, passed again, [/people/new?id=5]. *)
Lemma urlFor_twice :
  urlForInner "/people/new" (JObj [("action", JStr "show"); ("id", JNum 5)])
  = Return ("/people/show?id=5", JObj [("id", JNum 5)])
  /\ urlForInner "/people/new" (JObj [("id", JNum 5)])
     = Return ("/people/new?id=5", JObj [("id", JNum 5)]).
Proof.
  exact (@urlFor_consumes_its_options "people" "new" ""
           [("action", JStr "show"); ("id", JNum 5)] eq_refl eq_refl eq_refl).
Defined.

(** On the page [/dashboard], a routed success with an [id] is rejected. *)
Lemma routed_redirect_on_dashboard :
  exists F e,
    wrap (default_urlFor "/dashboard") (api_fn json_parse POST) "/people" JUndefined
      {| routeWith := Some page_history |} (answer 201 body_created None) blank_page
    = (Return F, blank_page)
    /\ outcome F = Rejected e.
Proof.
  exact (@routed_redirect_needs_two_segments Page page_history "dashboard"
           (api_fn json_parse POST) "/people" JUndefined (answer 201 body_created None)
           blank_page (JObj [("message", JStr "created"); ("id", JNum 8)]) (JStr "created")
           eq_refl eq_refl eq_refl eq_refl).
Defined.

(** On [/people/new], the answer [{"message": ...}] with the Location
    [/people/8] pushes [/people/new?redirectTo=%2Fpeople%2F8]. *)
Lemma location_becomes_query_people :
  exists F,
    wrap (default_urlFor "/people/new") (api_fn json_parse POST) "/people" JUndefined
      {| routeWith := Some page_history |}
      (answer 201 ("{" ++ dq ++ "message" ++ dq ++ ":" ++ dq ++ "created" ++ dq ++ "}")
         (Some "/people/8"))
      blank_page
    = (Return F,
       {| entries := [JObj [("pathname", JStr "/people/new?redirectTo=%2Fpeople%2F8");
                            ("state", JObj [("serverMessage", JStr "created")])]];
          aborted := []; caught := [] |})
    /\ outcome F = Fulfilled JUndefined.
Proof.
  refine (@location_becomes_query Page page_history json_parse "people" "new" "" POST
            "/people" JUndefined
            {| status := 201;
               responseText := "{" ++ dq ++ "message" ++ dq ++ ":" ++ dq ++ "created" ++ dq ++ "}";
               Location := Some "/people/8" |}
            (JStr "created") "/people/8" blank_page eq_refl eq_refl eq_refl _ eq_refl eq_refl _).
  - cbn. lia.
  - discriminate.
Defined.

(** A POST that never reached the server. *)
Lemma unreachable_post :
  exists F,
    JsonApi json_parse page_urlFor POST "/people" (JObj [("name", JStr "Ada")])
      (no_options Page) (answer 0 "" None) blank_page
    = (Return F, blank_page)
    /\ outcome F = Rejected (JStr "Could not reach the server").
Proof.
  exact (@unreachable_rejects Page page_urlFor json_parse POST "/people"
           (JObj [("name", JStr "Ada")])
           {| status := 0; responseText := ""; Location := None |} blank_page eq_refl).
Defined.

(** A 500 whose body is [0] rejects with the number 0. *)
Lemma failure_body_zero :
  exists F,
    JsonApi json_parse page_urlFor GET "/rest-resource/101" JUndefined
      (no_options Page) (answer 500 "0" None) blank_page
    = (Return F, blank_page)
    /\ outcome F = Rejected (JNum 0).
Proof.
  refine (@failure_primitive_body Page page_urlFor json_parse GET "/rest-resource/101"
            JUndefined {| status := 500; responseText := "0"; Location := None |}
            (JNum 0) blank_page _ _ eq_refl eq_refl _).
  - discriminate.
  - cbn. lia.
  - discriminate.
Defined.

(** The answer [null], routed. *)
Lemma routed_null_is_rejected :
  exists F e,
    wrap page_urlFor (api_fn json_parse GET) "/rest-resource/101" JUndefined
      {| routeWith := Some page_history |} (answer 200 "null" None) blank_page
    = (Return F, blank_page)
    /\ outcome F = Rejected e.
Proof.
  exact (@routed_null_success_rejects Page page_urlFor (api_fn json_parse GET)
           "/rest-resource/101" JUndefined page_history (answer 200 "null" None)
           blank_page JNull eq_refl eq_refl).
Defined.

(** [get(url, {a: null})] asks for [url?]. *)
Lemma get_null_parameter :
  xhr_url (get_fn json_parse "/rest-resource" (JObj [("a", JNull)]) resolve reject)
  = "/rest-resource?".
Proof.
  exact (@get_bare_question_mark json_parse Outcome resolve reject "/rest-resource"
           (JObj [("a", JNull)]) eq_refl eq_refl).
Defined.

(** The same [id] again. *)
Lemma same_id_no_reload :
  componentWillReceiveProps json_parse page_urlFor same_path "/rest-resource" plain_options
    props_id_1 props_id_1 Silent showing_list
  = (Return tt, showing_list).
Proof.
  exact (@same_query_no_reload json_parse page_urlFor same_path "/rest-resource" plain_options
           props_id_1 props_id_1 Silent showing_list eq_refl eq_refl eq_refl eq_refl).
Defined.

(** From [id={1}], which failed, to [id={2}]: the old error stays on screen
    while the request is on its way. *)
Lemma new_id_shows_old_error :
  exists c',
    componentWillReceiveProps json_parse page_urlFor same_path "/rest-resource" plain_options
      props_id_1 props_id_2 Silent showing_error
    = (Return tt, c')
    /\ state c' = {| data := JNull; errorStatus := JStr "bad id" |}
    /\ render plain_options props_id_2 (state c') = ErrorPlaceholder (JStr "bad id").
Proof.
  exact (@changed_query_keeps_error json_parse page_urlFor same_path "/rest-resource"
           plain_options props_id_1 props_id_2 Silent showing_error
           (or_introl eq_refl) eq_refl).
Defined.

(** A list on screen and a 404 on reload: the list stays. *)
Lemma failed_reload_keeps_list :
  exists c',
    load json_parse page_urlFor same_path "/rest-resource" plain_options
      props_id_1 props_id_1 (answer 404 body_bad_id None) showing_list
    = (Return tt, c')
    /\ data (state c') = JArr [JStr "a"] []
    /\ forall shown,
         render plain_options shown (state c') = render plain_options shown (state showing_list).
Proof.
  exact (@failed_reload_is_not_shown json_parse page_urlFor same_path "/rest-resource"
           plain_options props_id_1 props_id_1 (answer 404 body_bad_id None) (JStr "bad id")
           showing_list eq_refl eq_refl).
Defined.

(** An [onError] that throws what it is given. *)
Lemma throwing_onError :
  load json_parse page_urlFor same_path "/rest-resource" plain_options
    props_throwing props_throwing (answer 404 body_bad_id None) no_component
  = (Return tt, {| state := initial_state; events := [Called OnError (JStr "bad id")] |}).
Proof.
  exact (@onError_throws_skips_onLoad json_parse page_urlFor same_path "/rest-resource"
           plain_options props_throwing props_throwing (answer 404 body_bad_id None)
           (fun e => Throw e) (JStr "bad id") (JStr "bad id") no_component
           eq_refl eq_refl eq_refl).
Defined.

(** A 500 whose body is [0], in the loader. *)
Lemma zero_error_keeps_loading :
  exists c',
    load json_parse page_urlFor same_path "/rest-resource" plain_options
      props_id_1 props_id_1 (answer 500 "0" None) no_component
    = (Return tt, c')
    /\ errorStatus (state c') = JNum 0
    /\ forall shown, render plain_options shown (state c') = LoadingPlaceholder.
Proof.
  exact (@falsy_error_keeps_loading json_parse page_urlFor same_path "/rest-resource"
           plain_options props_id_1 props_id_1 (answer 500 "0" None) (JNum 0) no_component
           eq_refl eq_refl eq_refl eq_refl).
Defined.

(** [http://example.com] has no [/] after its host, and [bob@] stands before
    the host of [http://bob@example.com/people]. *)
Lemma hosts_that_throw :
  (exists e, generatePath echo_compile ("http://" ++ "example.com") (JObj []) empty_cache
             = (Throw e, empty_cache))
  /\ (exists e, generatePath echo_compile ("http://" ++ "bob" ++ "@" ++ "example.com/people")
                  (JObj []) empty_cache
                = (Throw e, empty_cache)).
Proof.
  destruct (@host_needs_a_slash echo_compile "http://" (JObj []) empty_cache
              (or_introl eq_refl)) as [Hslash Hat].
  split.
  - exact (Hslash "example.com" eq_refl).
  - exact (Hat "bob" "example.com/people" eq_refl).
Defined.

(** After [http://a.example/people], the path [https://b.example/people] is
    answered with the host [http://a.example/]. *)
Lemma second_host_is_ignored :
  exists st1,
    generatePath echo_compile "http://a.example/people" (JObj []) empty_cache
    = (Return "http://a.example/people", st1)
    /\ generatePath echo_compile "https://b.example/people" (JObj []) st1
       = (Return "http://a.example/people", st1).
Proof.
  refine (@first_host_is_reused echo_compile "http://a.example/people"
            "https://b.example/people" "http://a.example/" "https://b.example/" "people"
            (fun _ => Return "people") (JObj []) (JObj []) empty_cache
            eq_refl eq_refl _ _ eq_refl eq_refl eq_refl); discriminate.
Defined.

Lemma empty_cache_well_formed : well_formed empty_cache.
Proof.
  unfold well_formed. cbn. repeat split; try constructor. discriminate.
Defined.

(** The cache after its first entry. *)
Lemma first_entry_well_formed :
  well_formed (snd (generatePath echo_compile "/people/:id" (JObj []) empty_cache)).
Proof.
  exact (@cache_stays_well_formed echo_compile "/people/:id" (JObj []) empty_cache
           empty_cache_well_formed).
Defined.

(** A first call on [/people], and one on [constructor]. *)
Lemma relative_path_first_call :
  (fst (generatePath echo_compile "/people" (JObj []) empty_cache) = Return "/people"
   /\ memo_of echo_compile (snd (generatePath echo_compile "/people" (JObj []) empty_cache)))
  /\ fst (generatePath echo_compile "constructor" (JObj []) empty_cache)
     = Throw (TypeError "generator is not a function").
Proof.
  assert (Hmemo : memo_of echo_compile empty_cache) by (intros p e H; discriminate H).
  split.
  - exact (@relative_paths_are_memoised echo_compile "/people" (JObj []) empty_cache
             Hmemo empty_cache_well_formed eq_refl).
  - exact (proj1 (@relative_paths_are_memoised echo_compile "constructor" (JObj [])
                    empty_cache Hmemo empty_cache_well_formed eq_refl)).
Defined.

(** A composer given [{name: "Ada", notes: null}] as [defaultValue]: the
    name is Ada's, the notes are the default ones. *)
Lemma suggested_person_data :
  exists data,
    Composer.constructor person_spec suggested_person blank_composer
    = (Return tt, {| Composer.state := [("data", JObj data)]; Composer.calls := [] |})
    /\ assoc "name" data = Some (JStr "Ada")
    /\ assoc "notes" data = Some (JStr "none").
Proof.
  destruct (@constructor_defaults person_spec suggested_person
              (fun record => Return (person_fields record))
              (person_fields (JObj [("name", JStr "Ada"); ("notes", JNull)]))
              blank_composer eq_refl eq_refl eq_refl eq_refl)
    as (data & Hbuilt & Hread).
  exists data. split; [exact Hbuilt|]. split; [exact (Hread "name") | exact (Hread "notes")].
Defined.

(** A composer that can only create, given a [defaultValue], throws. *)
Lemma create_only_with_suggestion :
  match Composer.constructor create_only_spec suggested_person blank_composer with
  | (Return _, c') =>
      truthy (Composer.defaultValue suggested_person) = false
      /\ truthy (Composer.existingObject suggested_person) = false
      /\ Composer.state c'
         = [("data", JObj (Object_assign [] (Composer.defaultState create_only_spec)))]
  | (Throw _, c') =>
      (truthy (Composer.defaultValue suggested_person) = true
       \/ truthy (Composer.existingObject suggested_person) = true)
      /\ c' = blank_composer
  end.
Proof.
  exact (@create_only_takes_no_record create_only_spec suggested_person blank_composer eq_refl).
Defined.

(** Ada's form, when the props change to another record. *)
Lemma other_record_keeps_form :
  assoc "data"
    (Composer.state
       (snd (Composer.componentWillReceiveProps person_spec person_7
               {| Composer.defaultValue := JUndefined;
                  Composer.existingObject :=
                    JObj [("id", JNum 8); ("name", JStr "Bob"); ("notes", JStr "second")];
                  Composer.onSuccess := None; Composer.onError := None |}
               editing_ada)))
  = assoc "data" (Composer.state editing_ada).
Proof.
  refine (@new_props_keep_data person_spec person_7 _ editing_ada _).
  intros f v d [= <-] [= <-]. reflexivity.
Defined.

(** [set("notes")("second")] on Ada's form. *)
Lemma set_notes :
  exists data',
    Composer.set "notes" (JStr "second") editing_ada
    = (Return tt,
       {| Composer.state := set_own "data" (JObj data') (Composer.state editing_ada);
          Composer.calls := [] |})
    /\ assoc "notes" data' = Some (JStr "second")
    /\ assoc "name" data' = Some (JStr "Ada").
Proof.
  destruct (@set_then_get "notes" (JStr "second")
              [("name", JStr "Ada"); ("notes", JStr "first")] editing_ada eq_refl)
    as (data' & Hset & Hread).
  - constructor; [cbn; intros [H|[]]; discriminate H|].
    constructor; [intros []|]. constructor.
  - exists data'. split; [exact Hset|].
    split; [exact (Hread "notes") | exact (Hread "name")].
Defined.



(** A new record the server accepts, with the Location [/people/8]. *)
Lemma created_ada :
  exists c',
    Composer.submit json_parse page_urlFor (fun path _ => Return path) "/people" person_spec
      no_record (answer 201 body_created (Some "/people/8")) editing_ada
    = (Return (Fulfilled JUndefined), c')
    /\ Composer.state c'
       = [("data", JObj [("name", JStr "Ada"); ("notes", JStr "first")]);
          ("redirectTo", JStr "/people/8");
          ("serverMessage", JStr "created")]
    /\ Composer.calls c' = [].
Proof.
  refine (@created_record_redirects json_parse page_urlFor (fun path _ => Return path)
            "/people" person_spec no_record
            {| status := 201; responseText := body_created; Location := Some "/people/8" |}
            (JObj [("name", JStr "Ada"); ("notes", JStr "first")])
            [("message", JStr "created"); ("id", JNum 8)] "/people/8"
            editing_ada eq_refl eq_refl eq_refl eq_refl eq_refl _ eq_refl eq_refl _ I).
  - cbn. lia.
  - discriminate.
Defined.

(** The link that follows: [/people/new?0=%2Fp&...] for the header [/p]. *)
Lemma continue_link_for_header :
  DefaultServerHandler (default_urlFor "/people/new")
    (handler_props [("redirectTo", JStr "/p"); ("serverMessage", JStr "created")])
  = Return (Value JUndefined,
            Element {| message := JStr "created";
                       redirect := Element {| href := "/people/new?0=%2F&1=p" |} |}).
Proof.
  refine (@continue_link_spells_the_header "people" "new" ""
            "/p" [("redirectTo", JStr "/p"); ("serverMessage", JStr "created")]
            eq_refl eq_refl eq_refl eq_refl _).
  discriminate.
Defined.
